(** * nil.js client: PublicClient, Faucet and wallet addressing

    A shallow embedding of [src/clients/PublicClient.ts] and of the [Faucet]
    class, together with the properties the specification states about them.
    The address derivation, the envelope's [encode] and the [WalletV1]
    constructor are not among the sources; they are modelled from the
    specification, and the constructor calls of the wallet tests are checked
    against that model.

    JavaScript promises are modelled in a state-and-error monad: the state is
    the node behind the transport (an abstract [World]) plus the log of the
    requests the client has issued; an [await] of a rejected promise is an
    error result, and [try]/[catch] is the monad's handler.  Numbers that
    count (seqno, chain id, retry) are integers. *)

From Stdlib Require Import ZArith List String Ascii Bool Lia.
From Stdlib Require Import DecimalString DecimalZ.
From Stdlib.Strings Require Import Byte.
From Equations Require Import Equations.
Import ListNotations.
Set Warnings "-register-all".
Local Open Scope string_scope.
Local Open Scope list_scope.
Local Open Scope Z_scope.

Set Implicit Arguments.

(** ** Values and errors *)

Definition Hex := string.
Definition bytes := list byte.

(** JSON values that travel through [this.request]. *)
Inductive Json : Type :=
| JNull
| JBool (b : bool)
| JNum (z : Z)
| JStr (s : string).

(** A missing [shardId] is sent as [undefined], which serialises as [null]. *)
Definition json_of_shard (shardId : option Z) : Json :=
  match shardId with
  | Some z => JNum z
  | None => JNull
  end.

(** Error objects.  [Rejected] stands for any error raised by a collaborator
    (the transport, the node, a codec); [JsError msg cause] is
    [new Error(msg, { cause })]; the named errors are the ones the sources
    and the specification construct. *)
Inductive error : Type :=
| Rejected (reason : string)
| JsError (message : string) (cause : option error)
| BlockNotFoundError (blockNumberOrHash : Hex) (cause : error)
| MissingSignature
| ConfigurationError
| InvalidShardId.

Definition error_cause (e : error) : option error :=
  match e with
  | JsError _ c => c
  | BlockNotFoundError _ c => Some c
  | _ => None
  end.

Inductive Result (A : Type) : Type :=
| Ok (a : A)
| Err (e : error).
Arguments Ok {A} a.
Arguments Err {A} e.

(** ** The request log *)

Record RequestArgs : Type := mkRequest {
  method : string;
  params : list Json
}.

Inductive Event : Type :=
| EvRequest (r : RequestArgs)
    (* one JSON-RPC request handed to the transport *)
| EvWaitTillCompleted (shardId : Z) (hash : Hex)
    (* one call of waitTillCompleted, entered when the caller has its
       answer or stops waiting for it *)
| EvTimer (ms : Z).
    (* one setTimeout that ran to its end while the caller waited on it *)

Definition is_submission (ev : Event) : bool :=
  match ev with
  | EvRequest r => String.eqb (method r) "eth_sendRawTransaction"
  | _ => false
  end.

Definition is_rpc (ev : Event) : bool :=
  match ev with
  | EvRequest _ => true
  | _ => false
  end.

Definition submissions (tr : list Event) : nat :=
  List.length (filter is_submission tr).

Definition rpc_calls (tr : list Event) : nat :=
  List.length (filter is_rpc tr).

(** ** The promise monad *)

Section Promise.

Variable World : Type.

Record State : Type := mkState {
  world : World;
  trace : list Event
}.

Definition M (A : Type) : Type := State -> Result A * State.

Definition ret {A} (a : A) : M A := fun s => (Ok a, s).

Definition throw {A} (e : error) : M A := fun s => (Err e, s).

Definition bind {A B} (m : M A) (k : A -> M B) : M B :=
  fun s =>
    match m s with
    | (Ok a, s') => k a s'
    | (Err e, s') => (Err e, s')
    end.

(** [try { m } catch (error) { h error }] *)
Definition try_catch {A} (m : M A) (h : error -> M A) : M A :=
  fun s =>
    match m s with
    | (Ok a, s') => (Ok a, s')
    | (Err e, s') => h e s'
    end.

(** A synchronous call that may throw. *)
Definition lift {A} (r : Result A) : M A := fun s => (r, s).

Definition log (ev : Event) : M unit :=
  fun s => (Ok tt, mkState (world s) (trace s ++ [ev])).

(** A collaborator that answers from the world, logged as [ev]. *)
Definition perform {A} (ev : Event) (f : World -> Result A * World) : M A :=
  fun s =>
    let (r, w) := f (world s) in
    (r, mkState w (trace s ++ [ev])).

(** [await new Promise((resolve) => setTimeout(resolve, ms))] *)
Definition sleep (ms : Z) : M unit := log (EvTimer ms).

(** [await Promise.all([m1, m2])].  Both promises are started, in this
    order, before either is awaited; the result is the pair of values, or
    the rejection that is observed first.  When both reject, which one comes
    first is the world's choice ([leftFirst]). *)
Definition promise_all2 {A B} (leftFirst : World -> bool)
    (m1 : M A) (m2 : M B) : M (A * B) :=
  fun s =>
    let (r1, s1) := m1 s in
    let (r2, s2) := m2 s1 in
    match r1, r2 with
    | Ok a, Ok b => (Ok (a, b), s2)
    | Err e, Ok _ => (Err e, s2)
    | Ok _, Err e => (Err e, s2)
    | Err e1, Err e2 => (Err (if leftFirst (world s2) then e1 else e2), s2)
    end.

(** [await Promise.race([new Promise((resolve) =>
    setTimeout(() => resolve(dflt), ms)), p])] where [p] is the promise of
    a call logged as [ev]: [p] works on the state, requests of its own
    included, and answers [None] when it has not settled before the timer;
    the race then yields [dflt]. *)
Definition race_timeout {A} (ms : Z) (dflt : A) (ev : Event)
    (p : State -> option (Result A) * State) : M A :=
  fun s =>
    let (r, s') := p s in
    match r with
    | Some r => (r, mkState (world s') (trace s' ++ [ev]))
    | None => (Ok dflt, mkState (world s') (trace s' ++ [ev; EvTimer ms]))
    end.

End Promise.

Arguments ret {World A} a.
Arguments throw {World A} e.
Arguments lift {World A} r.
Arguments log {World} ev.
Arguments sleep {World} ms.

(** A parameter with a default value: [undefined] selects the default. *)
Definition default {A} (a : option A) (d : A) : A :=
  match a with Some x => x | None => d end.

Declare Scope promise_scope.
Delimit Scope promise_scope with promise.
Notation "x <- m ;; k" := (bind m (fun x => k))
  (at level 61, m at next level, right associativity) : promise_scope.
Notation "m ;;; k" := (bind m (fun _ => k))
  (at level 61, right associativity) : promise_scope.
Local Open Scope promise_scope.

(** ** PublicClient (src/clients/PublicClient.ts) *)

Module PublicClient.
Section Client.

Variable World : Type.

(** What [BaseClient] and the imported helpers provide. *)
Record Deps : Type := mkDeps {
  (* the transport: the node's answer to one request *)
  transport : RequestArgs -> World -> Result Json * World;
  (* assertIsValidShardId, from ../index.js *)
  assertIsValidShardId : option Z -> Result unit;
  (* hexToNumber, from ../encoding/index.js *)
  hexToNumber : Json -> Result Z;
  (* addHexPrefix, from ../utils/hex.js *)
  addHexPrefix : Hex -> Hex;
  (* bytesToHex, from ../encoding/index.js *)
  bytesToHex : bytes -> Hex
}.

Record Client : Type := mkClient {
  deps : Deps;
  shardId : option Z
}.

(** [this.request(args)] *)
Definition request (this : Client) (args : RequestArgs) : M World Json :=
  perform (EvRequest args) (transport (deps this) args).

(** The default of a [shardId] parameter: [shardId = this.shardId]. *)
Definition shard_arg (this : Client) (arg : option Z) : option Z :=
  match arg with Some z => Some z | None => shardId this end.

Definition getBlockByHash (this : Client)
    (hash : Hex) (fullTx : option bool) (shard : option Z) : M World Json :=
  let fullTx := default fullTx false in
  let shardId := shard_arg this shard in
  lift (assertIsValidShardId (deps this) shardId) ;;;
  try_catch
    (request this (mkRequest "eth_getBlockByHash"
                     [json_of_shard shardId; JStr hash; JBool fullTx]))
    (fun error => throw (BlockNotFoundError hash error)).

Definition getBlockByNumber (this : Client)
    (blockNumber : Hex) (fullTx : option bool) (shard : option Z)
    : M World Json :=
  let fullTx := default fullTx false in
  let shardId := shard_arg this shard in
  lift (assertIsValidShardId (deps this) shardId) ;;;
  try_catch
    (request this (mkRequest "eth_getBlockByNumber"
                     [json_of_shard shardId; JStr blockNumber; JBool fullTx]))
    (fun error => throw (BlockNotFoundError blockNumber error)).

Definition getMessageCount (this : Client)
    (address : Hex) (blockNumberOrHash : string) : M World Z :=
  res <- request this (mkRequest "eth_getTransactionCount"
                         [JStr address; JStr blockNumberOrHash]) ;;
  lift (hexToNumber (deps this) res).

(** [sendRawMessage(message: `0x${string}` | Uint8Array)] *)
Definition sendRawMessage (this : Client) (message : Hex + bytes)
    : M World Json :=
  request this
    (mkRequest "eth_sendRawTransaction"
       [JStr match message with
             | inl s => s
             | inr b => addHexPrefix (deps this) (bytesToHex (deps this) b)
             end]).

Definition getGasPrice (this : Client) : M World Z :=
  let stubGasPrice := 1 in
  ret stubGasPrice.

Definition estimateGasLimit (this : Client) : M World Z :=
  let stubGasLimit := 1000000 in
  ret stubGasLimit.

Definition chainId (this : Client) : M World Z :=
  res <- request this (mkRequest "eth_chainId" []) ;;
  lift (hexToNumber (deps this) res).

End Client.
End PublicClient.

(** ** PublicClient, the other queries *)

(** [x || d] on bigints: [undefined] and [0n] are falsy. *)
Definition bigint_or (x : option Z) (d : Z) : Z :=
  match x with
  | Some z => if z =? 0 then d else z
  | None => d
  end.

(** [z.toString(10)] of a bigint. *)
Definition toString10 (z : Z) : string :=
  NilZero.string_of_int (Z.to_int z).

(** Reading a decimal numeral back. *)
Definition parse10 (s : string) : option Z :=
  option_map Z.of_int (NilZero.int_of_string s).

(** The argument of [call]. *)
Record CallArgs : Type := mkCallArgs {
  from : Hex;
  callTo : Hex;
  callData : Hex + bytes;
  callValue : option Z;
  gasLimit : option Z
}.

(** The object [call] sends as first parameter. *)
Record SendData : Type := mkSendData {
  sd_from : Hex;
  sd_to : Hex;
  sd_data : Hex;
  sd_value : Hex;
  sd_gasLimit : string
}.

Module PublicClientQueries.
Section Queries.

Variable World : Type.

(** Further helpers of ../encoding/index.js, and how the transport writes
    the object of [call] into the request. *)
Record Codec : Type := mkCodec {
  hexToBytes : Json -> Result bytes;
  hexToBigInt : Json -> Result Z;
  toHex : Z -> Hex;
  objectToJson : SendData -> Json
}.

Variable this : PublicClient.Client World.
Variable codec : Codec.

Definition getBlockMessageCountByNumber
    (blockNumber : string) (shard : option Z) : M World Json :=
  let shardId := PublicClient.shard_arg this shard in
  lift (PublicClient.assertIsValidShardId (PublicClient.deps this) shardId) ;;;
  res <- PublicClient.request this
           (mkRequest "eth_getBlockTransactionCountByNumber"
              [json_of_shard shardId; JStr blockNumber]) ;;
  ret res.

Definition getBlockMessageCountByHash
    (hash : Hex) (shard : option Z) : M World Json :=
  let shardId := PublicClient.shard_arg this shard in
  lift (PublicClient.assertIsValidShardId (PublicClient.deps this) shardId) ;;;
  res <- PublicClient.request this
           (mkRequest "eth_getBlockTransactionCountByHash"
              [json_of_shard shardId; JStr hash]) ;;
  ret res.

Definition getCode (address : Hex) (blockNumberOrHash : string)
    : M World bytes :=
  res <- PublicClient.request this
           (mkRequest "eth_getCode" [JStr address; JStr blockNumberOrHash]) ;;
  lift (hexToBytes codec res).

Definition getBalance (address : Hex) (blockNumberOrHash : string)
    : M World Z :=
  res <- PublicClient.request this
           (mkRequest "eth_getBalance"
              [JStr (PublicClient.addHexPrefix (PublicClient.deps this)
                       address);
               JStr blockNumberOrHash]) ;;
  lift (hexToBigInt codec res).

(** [typeof hash === "string" ? addHexPrefix(hash)
                               : addHexPrefix(bytesToHex(hash))] *)
Definition getMessageReceiptByHash (hash : Hex + bytes) (shard : option Z)
    : M World Json :=
  let shardId := PublicClient.shard_arg this shard in
  lift (PublicClient.assertIsValidShardId (PublicClient.deps this) shardId) ;;;
  res <- PublicClient.request this
           (mkRequest "eth_getInMessageReceipt"
              [json_of_shard shardId;
               JStr match hash with
                    | inl s =>
                        PublicClient.addHexPrefix (PublicClient.deps this) s
                    | inr b =>
                        PublicClient.addHexPrefix (PublicClient.deps this)
                          (PublicClient.bytesToHex (PublicClient.deps this) b)
                    end]) ;;
  ret res.

(** [const sendData = {...}] of [call]. *)
Definition sendData (callArgs : CallArgs) : SendData :=
  {| sd_from := from callArgs;
     sd_to := callTo callArgs;
     sd_data :=
       match callData callArgs with
       | inl s => s
       | inr b =>
           PublicClient.addHexPrefix (PublicClient.deps this)
             (PublicClient.bytesToHex (PublicClient.deps this) b)
       end;
     sd_value := toHex codec (bigint_or (callValue callArgs) 0);
     sd_gasLimit := toString10 (bigint_or (gasLimit callArgs) 5000000) |}.

Definition call (callArgs : CallArgs) (blockNumberOrHash : string)
    : M World Json :=
  let sendData := sendData callArgs in
  res <- PublicClient.request this
           (mkRequest "eth_call"
              [objectToJson codec sendData; JStr blockNumberOrHash]) ;;
  ret res.

End Queries.
End PublicClientQueries.

(** ** Faucet *)

(** [String.prototype.toLowerCase], on the ASCII range. *)
Definition lower_ascii (a : ascii) : ascii :=
  let n := nat_of_ascii a in
  if (65 <=? n)%nat && (n <=? 90)%nat then ascii_of_nat (n + 32) else a.

Fixpoint toLowerCase (s : string) : string :=
  match s with
  | EmptyString => EmptyString
  | String a s' => String (lower_ascii a) (toLowerCase s')
  end.

(** The fields [new ExternalMessageEnvelope({...})] is given. *)
Record ExternalMessageEnvelope : Type := mkEnvelope {
  isDeploy : bool;
  to : bytes;
  chainId : Z;
  seqno : Z;
  data : bytes;
  authData : bytes
}.

Record IReceipt : Type := mkReceipt {
  success : bool
}.

(** What [waitTillCompleted(client, shardId, hash)] does with the client it
    is given: it asks for receipts with [client.getMessageReceiptByHash],
    as often as it likes, and settles with the receipts or with an error;
    [Pending] is where the timer of the caller finds it still polling.
    Which hashes it asks for and what it makes of the answers is the
    function's own business (../../utils/receipt.js).  The race does not
    cancel the polling; what it asks after the deadline is not followed
    here. *)
Inductive Poll : Type :=
| Settled (r : Result (list IReceipt))
| Pending
| Ask (hash : Hex + bytes) (shardId : option Z) (k : Result Json -> Poll).

(** The requests that ask for a receipt. *)
Definition receipt_poll (ev : Event) : bool :=
  match ev with
  | EvRequest r => String.eqb (method r) "eth_getInMessageReceipt"
  | _ => false
  end.

(** The requests of a trace, receipt polls left out. *)
Fixpoint own_requests (tr : list Event) : list RequestArgs :=
  match tr with
  | [] => []
  | EvRequest r :: tr' =>
      if receipt_poll (EvRequest r) then own_requests tr'
      else r :: own_requests tr'
  | _ :: tr' => own_requests tr'
  end.

(** [p] asks at most [n] times, whatever it is answered. *)
Fixpoint asks_at_most (p : Poll) (n : nat) {struct p} : Prop :=
  match p with
  | Settled _ => True
  | Pending => True
  | Ask _ _ k =>
      match n with
      | O => False
      | S n' => forall r, asks_at_most (k r) n'
      end
  end.

(** An argument of an ABI call. *)
Inductive AbiArg : Type :=
| ArgString (s : string)
| ArgBigInt (z : Z).

Module Faucet.

Definition address : Hex := "0x000100000000000000000000000000000FA00CE7".

Definition failure : error :=
  JsError "Failed to withdraw to the given address" None.

Section Faucet.

Variable World : Type.

(** What the Faucet imports. *)
Record Deps : Type := mkDeps {
  (* encodeFunctionData of viem, at abi = FaucetAbi *)
  encodeFunctionData : string -> list AbiArg -> Result Hex;
  (* hexToBytes, from ../../index.js *)
  hexToBytes : Hex -> Result bytes;
  (* bytesToHex of viem *)
  bytesToHex : bytes -> Hex;
  (* ExternalMessageEnvelope.encode and .hash *)
  encode : ExternalMessageEnvelope -> Result bytes;
  hash : ExternalMessageEnvelope -> Result bytes;
  (* getShardIdFromAddress, from ../../utils/address.js *)
  getShardIdFromAddress : Hex -> Result Z;
  (* waitTillCompleted, from ../../utils/receipt.js: its polling of the
     client it is handed, for a shard id and a hash *)
  waitTillCompleted : Z -> Hex -> Poll;
  (* which rejection of a Promise.all is observed first *)
  leftFirst : World -> bool
}.

Record t : Type := mkFaucet {
  client : PublicClient.Client World;
  deps : Deps
}.

Variable this : t.

(** The envelope both methods build. *)
Definition envelope (to : bytes) (chainId refinedSeqno : Z) (data : bytes)
    : ExternalMessageEnvelope :=
  {| isDeploy := false;
     to := to;
     chainId := chainId;
     seqno := refinedSeqno;
     data := data;
     authData := [] |}.

Definition withdrawTo (address' : Hex) (value : option Z) (seqno' : option Z)
    : M World bytes :=
  let value := default value 1000000000000000000 in
  p <- promise_all2 (leftFirst (deps this))
         match seqno' with
         | Some n => ret n
         | None => PublicClient.getMessageCount (client this) address "latest"
         end
         (PublicClient.chainId (client this)) ;;
  let (refinedSeqno, chainId) := p in
  calldata <- lift (encodeFunctionData (deps this) "withdrawTo"
                      [ArgString (toLowerCase address'); ArgBigInt value]) ;;
  to <- lift (hexToBytes (deps this) address) ;;
  data <- lift (hexToBytes (deps this) calldata) ;;
  let message := envelope to chainId refinedSeqno data in
  encodedMessage <- lift (encode (deps this) message) ;;
  PublicClient.sendRawMessage (client this)
    (inl (bytesToHex (deps this) encodedMessage)) ;;;
  lift (hash (deps this) message).

(** The [try] block of [withdrawToWithRetry] up to [const hash]: fetch,
    build, encode, submit; yields the hash as hex. *)
Definition submit (address' : Hex) (value : Z) : M World Hex :=
  p <- promise_all2 (leftFirst (deps this))
         (PublicClient.getMessageCount (client this) address "latest")
         (PublicClient.chainId (client this)) ;;
  let (refinedSeqno, chainId) := p in
  calldata <- lift (encodeFunctionData (deps this) "withdrawTo"
                      [ArgString (toLowerCase address'); ArgBigInt value]) ;;
  to <- lift (hexToBytes (deps this) address) ;;
  data <- lift (hexToBytes (deps this) calldata) ;;
  let message := envelope to chainId refinedSeqno data in
  encodedMessage <- lift (encode (deps this) message) ;;
  PublicClient.sendRawMessage (client this)
    (inl (bytesToHex (deps this) encodedMessage)) ;;;
  h <- lift (hash (deps this) message) ;;
  ret (bytesToHex (deps this) h).

(** The polling run through [client]: every [Ask] is a call of
    [client.getMessageReceiptByHash], logged like any other request. *)
Fixpoint poll (client : PublicClient.Client World) (p : Poll)
    (s : State World) : option (Result (list IReceipt)) * State World :=
  match p with
  | Settled r => (Some r, s)
  | Pending => (None, s)
  | Ask hash shardId k =>
      let (r, s') :=
        PublicClientQueries.getMessageReceiptByHash client hash shardId s in
      poll client (k r) s'
  end.

(** [const receipts = await Promise.race([...])]: the receipts that
    [waitTillCompleted(this.client, shard, hash)] collects, or [[]] after
    10000 ms. *)
Definition receiptsOf (hash : Hex) : M World (list IReceipt) :=
  shard <- lift (getShardIdFromAddress (deps this) address) ;;
  race_timeout 10000 [] (EvWaitTillCompleted shard hash)
    (poll (client this) (waitTillCompleted (deps this) shard hash)).

(** The two [if]s and the [return]: [None] is [continue], [Some hash] is
    [return hash]. *)
Definition classify (hash : Hex) (receipts : list IReceipt) : option Hex :=
  if (List.length receipts =? 0)%nat then None
  else if existsb (fun receipt => negb (success receipt)) receipts then None
  else Some hash.

(** The whole [try] block. *)
Definition attempt (address' : Hex) (value : Z) : M World (option Hex) :=
  hash <- submit address' value ;;
  receipts <- receiptsOf hash ;;
  ret (classify hash receipts).

(** One turn of the loop body, [currentRetry] already incremented. *)
Definition iteration (address' : Hex) (value retry currentRetry : Z)
    : M World (option Hex) :=
  try_catch (attempt address' value)
    (fun error =>
       sleep 1000 ;;;
       if currentRetry >=? retry then throw error else ret None).

(** [while (currentRetry++ < retry) { ... } throw new Error(...)] *)
Equations? while_loop (address' : Hex) (value retry currentRetry : Z)
    (s : State World) : Result Hex * State World
    by wf (Z.to_nat (retry - currentRetry)) lt :=
  while_loop address' value retry currentRetry s
    with Z_lt_dec currentRetry retry := {
    | left _ with iteration address' value retry (currentRetry + 1) s := {
        | (Ok (Some hash), s') => (Ok hash, s')
        | (Ok None, s') =>
            while_loop address' value retry (currentRetry + 1) s'
        | (Err e, s') => (Err e, s') }
    | right _ => (Err failure, s) }.
Proof. lia. Qed.

Definition withdrawToWithRetry
    (address' : Hex) (value : option Z) (retry : option Z) : M World Hex :=
  let value := default value 1000000000000000000 in
  let retry := default retry 5 in
  let currentRetry := 0 in
  while_loop address' value retry currentRetry.

End Faucet.
End Faucet.

(** ** AddressDeriver *)

Definition Z_of_byte (b : byte) : Z := Z.of_N (Byte.to_N b).

Definition byte_of_Z (z : Z) : byte :=
  match Byte.of_N (Z.to_N (z mod 256)) with
  | Some b => b
  | None => x00
  end.

(** [w] bytes, most significant first. *)
Fixpoint be_bytes (w : nat) (z : Z) : bytes :=
  match w with
  | O => []
  | S w' => be_bytes w' (z / 256) ++ [byte_of_Z z]
  end.

Definition be_value (b : bytes) : Z :=
  fold_left (fun acc x => acc * 256 + Z_of_byte x) b 0.

(** The trailing [n] bytes. *)
Definition trailing (n : nat) (b : bytes) : bytes :=
  skipn (List.length b - n) b.

Module AddressDeriver.

Definition addressWidth : nat := 20.

(** The network's parameters: how many leading bytes of an address hold the
    shard id, how many shards are configured, and the digest. *)
Record Network : Type := mkNetwork {
  shardWidth : nat;
  shardCount : Z;
  digest : Z -> bytes -> Z -> bytes -> bytes
}.

Definition validShardId (net : Network) (shardId : Z) : bool :=
  (0 <=? shardId) && (shardId <? shardCount net).

(** Modelled from the spec: the address derivation
    (utils/address.js and WalletV1.calculateWalletAddress) is not among the
    sources.  Section 4.1: the address is a digest of (shardId, publicKey,
    salt, initCode) truncated to the address width, with the shard id in
    fixed leading bytes; [InvalidShardId] outside the configured range. *)
Definition deriveAddress (net : Network)
    (publicKey : bytes) (shardId : Z) (salt : Z) (initCode : bytes)
    : Result bytes :=
  if validShardId net shardId then
    Ok (be_bytes (shardWidth net) shardId
        ++ trailing (addressWidth - shardWidth net)
             (digest net shardId publicKey salt initCode))
  else Err InvalidShardId.

(** [shard_of], the shard field of an address. *)
Definition shard_of (net : Network) (address : bytes) : Z :=
  be_value (firstn (shardWidth net) address).

(** A network is well formed when the shard field fits in an address, every
    configured shard fits in the field, and the digest is long enough to
    fill the rest. *)
Definition wellFormed (net : Network) : Prop :=
  (shardWidth net <= addressWidth)%nat /\
  shardCount net <= 256 ^ Z.of_nat (shardWidth net) /\
  forall sh pk salt code,
    (addressWidth - shardWidth net
     <= List.length (digest net sh pk salt code))%nat.

End AddressDeriver.

(** ** MessageEnvelope *)

Module MessageEnvelope.

Definition is_empty (b : bytes) : bool :=
  match b with [] => true | _ => false end.

(** Modelled from the spec: [ExternalMessageEnvelope.encode]
    (encoding/externalMessage.js) is not among the sources.  Section 4.2:
    encode fails with [MissingSignature] if [isDeploy || data is non-empty]
    and [authData] is empty; otherwise it is the canonical serialisation,
    taken here as [serialize]. *)
Definition encode (serialize : ExternalMessageEnvelope -> bytes)
    (e : ExternalMessageEnvelope) : Result bytes :=
  if (isDeploy e || negb (is_empty (data e))) && is_empty (authData e)
  then Err MissingSignature
  else Ok (serialize e).

(** Modelled from the spec: the same sentence of section 4.2 as a property
    of any function that stands for [encode]. *)
Definition rejects_unsigned
    (encode : ExternalMessageEnvelope -> Result bytes) : Prop :=
  forall e,
    isDeploy e = true \/ data e <> [] ->
    authData e = [] ->
    encode e = Err MissingSignature.

End MessageEnvelope.

(** ** WalletV1 (AccountClient) *)

Module WalletV1.

(** The constructor's argument; a missing property is [None].  [client] and
    [signer] take no part in the checks and are left out. *)
Record Config : Type := mkConfig {
  pubkey : option bytes;
  shardId : option Z;
  address : option bytes;
  salt : option Z
}.

Record t : Type := mkWallet {
  publicKey : option bytes;
  walletAddress : bytes
}.

Definition emptyInitCode : bytes := [].

(** Modelled from the spec: [WalletV1.calculateWalletAddress] is not among
    the sources.  Section 8, scenario A: it is [deriveAddress] at the empty
    init code. *)
Definition calculateWalletAddress (net : AddressDeriver.Network)
    (pubKey : bytes) (shardId : Z) (salt : Z) : Result bytes :=
  AddressDeriver.deriveAddress net pubKey shardId salt emptyInitCode.

(** Modelled from the spec: the [WalletV1] constructor is not among the
    sources (only its tests are).  Section 4.3: [ConfigurationError] when
    neither [address] nor [pubkey] + [shardId] is supplied, and when an
    explicit [address] and an explicit [salt] come together with
    [shardId]/[pubkey]; the explicit address wins; otherwise the address is
    derived, [salt] defaulting to [defaultSalt]. *)
Definition new (net : AddressDeriver.Network) (defaultSalt : Z)
    (cfg : Config) : Result t :=
  match address cfg with
  | Some a =>
      match salt cfg, pubkey cfg, shardId cfg with
      | Some _, Some _, Some _ => Err ConfigurationError
      | _, _, _ => Ok (mkWallet (pubkey cfg) a)
      end
  | None =>
      match pubkey cfg, shardId cfg with
      | Some pk, Some sh =>
          match calculateWalletAddress net pk sh
                  (default (salt cfg) defaultSalt) with
          | Ok a => Ok (mkWallet (Some pk) a)
          | Err e => Err e
          end
      | _, _ => Err ConfigurationError
      end
  end.

End WalletV1.

(** ** Vocabulary of the statements about the Faucet *)

(** [n] steps of [R] in a row. *)
Inductive iterated {St : Type} (R : St -> St -> Prop)
    : nat -> St -> St -> Prop :=
| iterated_O s : iterated R 0 s s
| iterated_S n s s1 s2 :
    R s s1 -> iterated R n s1 s2 -> iterated R (S n) s s2.

Module Run.
Section Run.

Variable World : Type.
Variable this : Faucet.t World.
Variable address' : Hex.
Variable value : Z.

Definition count_request : RequestArgs :=
  mkRequest "eth_getTransactionCount" [JStr Faucet.address; JStr "latest"].

Definition chain_request : RequestArgs := mkRequest "eth_chainId" [].

Definition send_request (payload : Hex) : RequestArgs :=
  mkRequest "eth_sendRawTransaction" [JStr payload].

(** The number the node gives in answer to [req], and the node afterwards. *)
Definition fetched (req : RequestArgs) (w : World) : Result Z * World :=
  let (r, w') :=
    PublicClient.transport (PublicClient.deps (Faucet.client this)) req w in
  (match r with
   | Ok j => PublicClient.hexToNumber (PublicClient.deps (Faucet.client this)) j
   | Err e => Err e
   end, w').

(** Call data is never empty: it begins with the selector of the function
    called. *)
Definition calldata_nonempty : Prop :=
  forall name args calldata data,
    Faucet.encodeFunctionData (Faucet.deps this) name args = Ok calldata ->
    Faucet.hexToBytes (Faucet.deps this) calldata = Ok data ->
    data <> [].

(** [e] is the envelope of this withdrawal for [seqno] and [chainId]: not
    a deploy, addressed to the faucet, with the call data of
    [withdrawTo(address, value)] as data and no signature. *)
Definition assembled (seqno chainId : Z) (e : ExternalMessageEnvelope)
    : Prop :=
  exists calldata to data,
    Faucet.encodeFunctionData (Faucet.deps this) "withdrawTo"
      [ArgString (toLowerCase address'); ArgBigInt value] = Ok calldata /\
    Faucet.hexToBytes (Faucet.deps this) Faucet.address = Ok to /\
    Faucet.hexToBytes (Faucet.deps this) calldata = Ok data /\
    e = mkEnvelope false to chainId seqno data [].

(** [payload] is the encoding of the envelope of this withdrawal for
    [seqno] and [chainId]. *)
Definition encodes (seqno chainId : Z) (payload : Hex) : Prop :=
  exists e encoded,
    assembled seqno chainId e /\
    Faucet.encode (Faucet.deps this) e = Ok encoded /\
    payload = Faucet.bytesToHex (Faucet.deps this) encoded.

(** From [s] to [s'] the client first asked the node for the message count
    of the faucet and for the chain id.  Receipt polls apart it made no
    further request, or exactly one: the submission of the encoding of the
    envelope for the two numbers the node answered from [s]. *)
Definition fresh_attempt (s s' : State World) : Prop :=
  exists rest,
    trace s' = trace s
               ++ [EvRequest count_request; EvRequest chain_request] ++ rest /\
    (own_requests rest = [] \/
     exists seqno chainId payload,
       fst (fetched count_request (world s)) = Ok seqno /\
       fst (fetched chain_request
              (snd (fetched count_request (world s)))) = Ok chainId /\
       encodes seqno chainId payload /\
       own_requests rest = [send_request payload]).

(** The attempt run from [s] submitted the message with hash [hash],
    collected the receipt chain [receipts], and left the state [s']. *)
Definition observes (s : State World) (hash : Hex)
    (receipts : list IReceipt) (s' : State World) : Prop :=
  exists s1,
    Faucet.submit this address' value s = (Ok hash, s1) /\
    Faucet.receiptsOf this hash s1 = (Ok receipts, s').

(** The chain is non-empty and every receipt reports success. *)
Definition confirmed (receipts : list IReceipt) : Prop :=
  receipts <> [] /\ forall r, In r receipts -> success r = true.

(** The chain is empty (nothing by the deadline) or holds a failure. *)
Definition unconfirmed (receipts : list IReceipt) : Prop :=
  receipts = [] \/ exists r, In r receipts /\ success r = false.

(** The state after the 1000 ms backoff. *)
Definition after_backoff (s : State World) : State World :=
  mkState (world s) (trace s ++ [EvTimer 1000]).

(** An attempt whose receipt chain was not confirmed. *)
Definition reported_failure (s s' : State World) : Prop :=
  exists hash receipts, observes s hash receipts s' /\ unconfirmed receipts.

(** An attempt that did not succeed: its chain was not confirmed, or it
    threw and the backoff was slept. *)
Inductive unsuccessful : State World -> State World -> Prop :=
| unsuccessful_receipts s s' :
    reported_failure s s' -> unsuccessful s s'
| unsuccessful_error s e s1 :
    Faucet.attempt this address' value s = (Err e, s1) ->
    unsuccessful s (after_backoff s1).

End Run.
End Run.

(** ** A node to run the clients against *)

Module Mock.

(** The node's state: how many submissions it has been sent. *)
Definition World : Type := nat.

(** A transport that refuses the requests [refuses] selects (by method and
    node state) and answers every other request with the number of
    submissions seen so far. *)
Definition transport (refuses : string -> World -> bool)
    (args : RequestArgs) (w : World) : Result Json * World :=
  let w' :=
    if String.eqb (method args) "eth_sendRawTransaction" then S w else w in
  if refuses (method args) w
  then (Err (Rejected "connection refused"), w')
  else (Ok (JNum (Z.of_nat w)), w').

Definition nothing : string -> World -> bool := fun _ _ => false.

Definition always (m : string) : string -> World -> bool :=
  fun m' _ => String.eqb m m'.

(** Refuses method [m] until the node has seen [k] submissions. *)
Definition before (k : nat) (m : string) : string -> World -> bool :=
  fun m' w => String.eqb m m' && (w <? k)%nat.

Definition hexDigit (n : N) : ascii :=
  match n with
  | 0 => "0" | 1 => "1" | 2 => "2" | 3 => "3" | 4 => "4" | 5 => "5"
  | 6 => "6" | 7 => "7" | 8 => "8" | 9 => "9" | 10 => "a" | 11 => "b"
  | 12 => "c" | 13 => "d" | 14 => "e" | _ => "f"
  end%N%char.

Fixpoint hexDigits (b : bytes) : string :=
  match b with
  | [] => ""
  | x :: b' =>
      String (hexDigit (Byte.to_N x / 16))
        (String (hexDigit (Byte.to_N x mod 16)) (hexDigits b'))
  end.

Definition bytesToHex (b : bytes) : Hex := String "0" (String "x" (hexDigits b)).

Definition hexToNumber (j : Json) : Result Z :=
  match j with
  | JNum z => Ok z
  | _ => Err (Rejected "not a number")
  end.

Definition clientDeps (refuses : string -> World -> bool)
    : PublicClient.Deps World :=
  {| PublicClient.transport := transport refuses;
     PublicClient.assertIsValidShardId := fun _ => Ok tt;
     PublicClient.hexToNumber := hexToNumber;
     PublicClient.addHexPrefix := fun h => h;
     PublicClient.bytesToHex := bytesToHex |}.

Definition client (refuses : string -> World -> bool)
    : PublicClient.Client World :=
  {| PublicClient.deps := clientDeps refuses;
     PublicClient.shardId := Some 1 |}.

(** An unchecked encoding: chain id, seqno and payload. *)
Definition serialize (e : ExternalMessageEnvelope) : bytes :=
  byte_of_Z (chainId e) :: byte_of_Z (seqno e) :: data e.

(** A [waitTillCompleted] that asks once for the receipt of the hash and
    settles with [report w] when the node answers [w]. *)
Definition poller (report : World -> option (Result (list IReceipt)))
    (shardId : Z) (hash : Hex) : Poll :=
  Ask (inl hash) (Some shardId)
    (fun answer =>
       match answer with
       | Ok (JNum w) =>
           match report (Z.to_nat w) with
           | Some r => Settled r
           | None => Pending
           end
       | Ok _ => Settled (Err (Rejected "not a receipt"))
       | Err e => Settled (Err e)
       end).

(** Helpers that always succeed, around [encode] and a receipt service
    that reports [report w] once the node has seen [w] submissions. *)
Definition faucetDeps
    (encode : ExternalMessageEnvelope -> Result bytes)
    (report : World -> option (Result (list IReceipt)))
    : Faucet.Deps World :=
  {| Faucet.encodeFunctionData := fun _ _ => Ok "0xa9059cbb";
     Faucet.hexToBytes := fun _ => Ok [xa9; x05];
     Faucet.bytesToHex := bytesToHex;
     Faucet.encode := encode;
     Faucet.hash := fun e => Ok [byte_of_Z (seqno e)];
     Faucet.getShardIdFromAddress := fun _ => Ok 1;
     Faucet.waitTillCompleted := poller report;
     Faucet.leftFirst := fun _ => true |}.

Definition faucet (refuses : string -> World -> bool)
    (report : World -> option (Result (list IReceipt)))
    : Faucet.t World :=
  {| Faucet.client := client refuses;
     Faucet.deps := faucetDeps (fun e => Ok (serialize e)) report |}.

(** The same faucet around the [encode] of the specification. *)
Definition strictFaucet (refuses : string -> World -> bool)
    (report : World -> option (Result (list IReceipt)))
    : Faucet.t World :=
  {| Faucet.client := client refuses;
     Faucet.deps := faucetDeps (MessageEnvelope.encode serialize) report |}.

(** A node on which submissions stay pending: it takes every request and
    answers 0, for the message count too. *)
Definition stalled (args : RequestArgs) (w : World) : Result Json * World :=
  (Ok (JNum 0),
   if String.eqb (method args) "eth_sendRawTransaction" then S w else w).

(** The faucet on the stalled node; no receipt ever shows up. *)
Definition stalledFaucet : Faucet.t World :=
  {| Faucet.client :=
       {| PublicClient.deps :=
            {| PublicClient.transport := stalled;
               PublicClient.assertIsValidShardId := fun _ => Ok tt;
               PublicClient.hexToNumber := hexToNumber;
               PublicClient.addHexPrefix := fun h => h;
               PublicClient.bytesToHex := bytesToHex |};
          PublicClient.shardId := Some 1 |};
     Faucet.deps := faucetDeps (fun e => Ok (serialize e)) (fun _ => None) |}.

(** Receipt services. *)
Definition failing : World -> option (Result (list IReceipt)) :=
  fun _ => Some (Ok [mkReceipt true; mkReceipt false]).

(** Nothing by the deadline for the first [k] submissions, then a chain of
    two successful receipts. *)
Definition confirmingAfter (k : nat)
    : World -> option (Result (list IReceipt)) :=
  fun w => if (w <=? k)%nat then None
           else Some (Ok [mkReceipt true; mkReceipt true]).

Definition start : State World := mkState 0%nat [].

Definition target : Hex := "0x0001AbCd00000000000000000000000000000001".

Definition wei : Z := 1000000000000000000.

(** A network with two-byte shard ids, four shards and a 32-byte digest. *)
Definition network : AddressDeriver.Network :=
  {| AddressDeriver.shardWidth := 2;
     AddressDeriver.shardCount := 4;
     AddressDeriver.digest := fun _ _ _ _ => repeat xaa 32 |}.

End Mock.

(** ** More vocabulary for runs of the Faucet *)

(** The milliseconds of the timers waited out in a trace. *)
Fixpoint waited (tr : list Event) : Z :=
  match tr with
  | [] => 0
  | EvTimer ms :: tr' => ms + waited tr'
  | _ :: tr' => waited tr'
  end.

(** The calls of [waitTillCompleted] in a trace. *)
Definition is_wait (ev : Event) : bool :=
  match ev with
  | EvWaitTillCompleted _ _ => true
  | _ => false
  end.

Definition waits (tr : list Event) : nat :=
  List.length (filter is_wait tr).

Module Withdrawal.
Section Withdrawal.

Variable World : Type.
Variable this : Faucet.t World.
Variable address' : Hex.
Variable value : Z.

(** [e] is the envelope the Faucet builds for this withdrawal from [seqno]
    and [chainId]. *)
Definition built (seqno chainId : Z) (e : ExternalMessageEnvelope) : Prop :=
  exists calldata to data,
    Faucet.encodeFunctionData (Faucet.deps this) "withdrawTo"
      [ArgString (toLowerCase address'); ArgBigInt value] = Ok calldata /\
    Faucet.hexToBytes (Faucet.deps this) Faucet.address = Ok to /\
    Faucet.hexToBytes (Faucet.deps this) calldata = Ok data /\
    e = Faucet.envelope to chainId seqno data.

(** The request that submits the encoding of [e]. *)
Definition submission (e : ExternalMessageEnvelope) (req : RequestArgs)
    : Prop :=
  exists encoded,
    Faucet.encode (Faucet.deps this) e = Ok encoded /\
    req = Run.send_request (Faucet.bytesToHex (Faucet.deps this) encoded).

(** The requests [withdrawTo] starts with: the chain id, after the message
    count when no seqno is given. *)
Definition fetches (seqno : option Z) : list Event :=
  match seqno with
  | Some _ => [EvRequest Run.chain_request]
  | None => [EvRequest Run.count_request; EvRequest Run.chain_request]
  end.

(** The seqno and chain id [withdrawTo] works with, read from the node in
    state [w] where they are not given. *)
Definition refined (seqno : option Z) (w : World) : Result Z * Result Z :=
  match seqno with
  | Some n => (Ok n, fst (Run.fetched this Run.chain_request w))
  | None =>
      (fst (Run.fetched this Run.count_request w),
       fst (Run.fetched this Run.chain_request
              (snd (Run.fetched this Run.count_request w))))
  end.

End Withdrawal.
End Withdrawal.

(** What [bytesToHex] makes of a result in bytes. *)
Definition hexResult {World : Type} (toHex : bytes -> Hex)
    (r : Result bytes * State World) : Result Hex * State World :=
  match r with
  | (Ok b, s) => (Ok (toHex b), s)
  | (Err e, s) => (Err e, s)
  end.

(** * Properties *)

Unset Implicit Arguments.

(** ** PublicClient *)

Module PublicClientFacts.
Section Facts.

Variable World : Type.
Variable this : PublicClient.Client World.

(** C9.  [getGasPrice] resolves to 1 and [estimateGasLimit] to 1000000
    whatever the client and the node are, and both leave the state as it
    was: no request reaches the transport. *)
Theorem gas_stubs_are_constant (s : State World) :
  PublicClient.getGasPrice this s = (Ok 1, s) /\
  PublicClient.estimateGasLimit this s = (Ok 1000000, s) /\
  rpc_calls (trace (snd (PublicClient.getGasPrice this s)))
  = rpc_calls (trace s) /\
  rpc_calls (trace (snd (PublicClient.estimateGasLimit this s)))
  = rpc_calls (trace s).
Proof.
  unfold PublicClient.getGasPrice, PublicClient.estimateGasLimit, ret.
  repeat split.
Qed.

(** C10.  Once the shard id has passed [assertIsValidShardId], whatever
    error the request of [getBlockByHash] or [getBlockByNumber] is rejected
    with comes back as a [BlockNotFoundError] that carries the requested
    hash or number and has that error as its cause. *)
Theorem block_request_failure_is_BlockNotFound
    (id : Hex) (fullTx : option bool) (shard : option Z)
    (s s' : State World) (e : error) :
  PublicClient.assertIsValidShardId (PublicClient.deps this)
    (PublicClient.shard_arg this shard) = Ok tt ->
  (PublicClient.request this
     (mkRequest "eth_getBlockByHash"
        [json_of_shard (PublicClient.shard_arg this shard); JStr id;
         JBool (default fullTx false)]) s = (Err e, s') ->
   PublicClient.getBlockByHash this id fullTx shard s
   = (Err (BlockNotFoundError id e), s')) /\
  (PublicClient.request this
     (mkRequest "eth_getBlockByNumber"
        [json_of_shard (PublicClient.shard_arg this shard); JStr id;
         JBool (default fullTx false)]) s = (Err e, s') ->
   PublicClient.getBlockByNumber this id fullTx shard s
   = (Err (BlockNotFoundError id e), s')) /\
  error_cause (BlockNotFoundError id e) = Some e.
Proof.
  intros Hvalid.
  unfold PublicClient.getBlockByHash, PublicClient.getBlockByNumber.
  unfold bind, lift, try_catch, throw.
  rewrite Hvalid.
  repeat split; intros Hreq; rewrite Hreq; reflexivity.
Qed.

End Facts.
End PublicClientFacts.

(** Against a node that refuses [eth_getBlockByHash], the query reports
    block-not-found with the refusal as its cause. *)
Lemma block_request_failure_witness :
  PublicClient.getBlockByHash (Mock.client (Mock.always "eth_getBlockByHash"))
    "0x9f86" None None Mock.start
  = (Err (BlockNotFoundError "0x9f86" (Rejected "connection refused")),
     mkState 0%nat [EvRequest (mkRequest "eth_getBlockByHash"
                              [JNum 1; JStr "0x9f86"; JBool false])]).
Proof.
  apply (PublicClientFacts.block_request_failure_is_BlockNotFound Mock.World
           (Mock.client (Mock.always "eth_getBlockByHash"))
           "0x9f86" None None Mock.start _ _ eq_refl).
  reflexivity.
Defined.

(** ** Faucet *)

(** Case analysis on the innermost [match] of a hypothesis. *)
Ltac break_match H :=
  match type of H with
  | context [match ?x with _ => _ end] =>
      lazymatch x with
      | context [match _ with _ => _ end] => fail
      | _ => destruct x eqn:?
      end
  end.

Module FaucetFacts.
Section Facts.

Variable World : Type.
Variable this : Faucet.t World.
Variable address' : Hex.
Variable value : Z.

Local Abbreviation submit := (Faucet.submit this address' value).
Local Abbreviation receiptsOf := (Faucet.receiptsOf this).
Local Abbreviation attempt := (Faucet.attempt this address' value).
Local Abbreviation iteration := (Faucet.iteration this address' value).
Local Abbreviation while_loop := (Faucet.while_loop this address' value).

(** The loop, one turn unrolled. *)
Lemma while_loop_unfold (retry currentRetry : Z) (s : State World) :
  while_loop retry currentRetry s =
  if currentRetry <? retry then
    match iteration retry (currentRetry + 1) s with
    | (Ok (Some hash), s') => (Ok hash, s')
    | (Ok None, s') => while_loop retry (currentRetry + 1) s'
    | (Err e, s') => (Err e, s')
    end
  else (Err Faucet.failure, s).
Proof.
  rewrite Faucet.while_loop_equation_1.
  unfold Faucet.while_loop_unfold_clause_1.
  destruct (Z_lt_dec currentRetry retry) as [Hlt | Hge].
  - rewrite (proj2 (Z.ltb_lt _ _) Hlt).
    destruct (iteration retry (currentRetry + 1) s) as [[[h | ] | e] s'];
      reflexivity.
  - rewrite (proj2 (Z.ltb_nlt _ _) Hge). reflexivity.
Qed.

(** *** Receipt polls *)

Lemma own_requests_app (l l' : list Event) :
  own_requests (l ++ l') = own_requests l ++ own_requests l'.
Proof.
  induction l as [ | ev l IH]; simpl; [reflexivity | ].
  destruct ev as [req | shard hash | ms]; try exact IH.
  rewrite IH.
  destruct (String.eqb (method req) "eth_getInMessageReceipt"); reflexivity.
Qed.

Lemma submissions_app (l l' : list Event) :
  submissions (l ++ l') = (submissions l + submissions l')%nat.
Proof.
  unfold submissions. rewrite filter_app, length_app. reflexivity.
Qed.

Lemma receipt_poll_not_submission (ev : Event) :
  receipt_poll ev = true -> is_submission ev = false.
Proof.
  destruct ev as [req | shard hash | ms]; simpl; try reflexivity.
  intros Hpoll. apply String.eqb_eq in Hpoll. rewrite Hpoll. reflexivity.
Qed.

(** Polls are no requests of the caller's own and submit nothing. *)
Lemma polls_quiet (polls : list Event) :
  Forall (fun ev => receipt_poll ev = true) polls ->
  own_requests polls = [] /\ submissions polls = 0%nat.
Proof.
  unfold submissions.
  induction 1 as [ | ev polls Hev _ [IHown IHsub]]; [split; reflexivity | ].
  pose proof (receipt_poll_not_submission _ Hev) as Hsub.
  destruct ev as [req | shard hash | ms]; try discriminate Hev.
  simpl in *. rewrite Hev, Hsub. split; assumption.
Qed.

(** Whatever [waitTillCompleted] does with the client, all it adds to the
    log are receipt polls. *)
Lemma poll_trace (p : Poll) :
  forall (s s' : State World) (r : option (Result (list IReceipt))),
    Faucet.poll (Faucet.client this) p s = (r, s') ->
    exists polls,
      trace s' = trace s ++ polls /\
      Forall (fun ev => receipt_poll ev = true) polls.
Proof.
  induction p as [r0 | | hash shardId k IH]; intros s s' r; simpl.
  - intros H; inversion H; subst.
    exists []. split; [symmetry; apply app_nil_r | constructor].
  - intros H; inversion H; subst.
    exists []. split; [symmetry; apply app_nil_r | constructor].
  - unfold PublicClientQueries.getMessageReceiptByHash, PublicClient.request,
      perform, bind, lift, ret.
    destruct (PublicClient.assertIsValidShardId _ _) as [[] | e].
    + destruct (PublicClient.transport _ _ (world s)) as [[j | e] w];
        intros H; apply IH in H; destruct H as (polls & Ht & Hpolls);
        simpl in Ht; rewrite <- app_assoc in Ht;
        eexists; (split; [exact Ht | ]);
        constructor; [reflexivity | exact Hpolls | reflexivity | exact Hpolls].
    + intros H. apply IH in H. exact H.
Qed.

(** *** What one attempt sends *)

(** The race: nothing at all when the shard of the faucet cannot be told;
    otherwise the polls, the call, and the timer when the deadline won. *)
Lemma receiptsOf_trace (hash : Hex) (s s' : State World)
    (r : Result (list IReceipt)) :
  receiptsOf hash s = (r, s') ->
  ((exists e, r = Err e) /\ s' = s) \/
  exists shard polls,
    Forall (fun ev => receipt_poll ev = true) polls /\
    (trace s' = trace s ++ polls ++ [EvWaitTillCompleted shard hash] \/
     (r = Ok [] /\
      trace s' = trace s ++ polls
                 ++ [EvWaitTillCompleted shard hash; EvTimer 10000])).
Proof.
  unfold Faucet.receiptsOf, bind, lift, race_timeout.
  destruct (Faucet.getShardIdFromAddress _ _) as [shard | e].
  - destruct (Faucet.poll _ _ s) as [r' s1] eqn:Hp.
    destruct (poll_trace _ _ _ _ Hp) as (polls & Ht & Hpolls).
    destruct r' as [r' | ]; intros H; inversion H; subst; simpl;
      right; exists shard, polls; (split; [exact Hpolls | ]);
      rewrite Ht, <- app_assoc; [left | right; split]; reflexivity.
  - intros H; inversion H; subst. left. split; [exists e | ]; reflexivity.
Qed.

(** Receipt polls apart, the race makes no request. *)
Lemma receiptsOf_quiet (hash : Hex) (s s' : State World)
    (r : Result (list IReceipt)) :
  receiptsOf hash s = (r, s') ->
  exists rest,
    trace s' = trace s ++ rest /\
    own_requests rest = [] /\ submissions rest = 0%nat.
Proof.
  intros Hr.
  destruct (receiptsOf_trace _ _ _ _ Hr)
    as [[_ Hs] | (shard & polls & Hpolls & [Ht | [_ Ht]])].
  - subst s'. exists []. split; [symmetry; apply app_nil_r | split; reflexivity].
  - destruct (polls_quiet _ Hpolls) as [Hown Hsub].
    eexists. split; [exact Ht | ].
    rewrite own_requests_app, submissions_app, Hown, Hsub.
    split; reflexivity.
  - destruct (polls_quiet _ Hpolls) as [Hown Hsub].
    eexists. split; [exact Ht | ].
    rewrite own_requests_app, submissions_app, Hown, Hsub.
    split; reflexivity.
Qed.

(** [submit] always issues the two fetches.  It fails before anything is
    sent, or it sends the encoding of the envelope for the two numbers
    fetched (and may then still fail). *)
Lemma submit_cases (s s1 : State World) (r : Result Hex) :
  submit s = (r, s1) ->
  (exists e,
     r = Err e /\
     trace s1 = trace s ++ [EvRequest Run.count_request;
                            EvRequest Run.chain_request]) \/
  (exists seqno chainId payload,
     fst (Run.fetched this Run.count_request (world s)) = Ok seqno /\
     fst (Run.fetched this Run.chain_request
            (snd (Run.fetched this Run.count_request (world s))))
     = Ok chainId /\
     Run.encodes this address' value seqno chainId payload /\
     trace s1 = trace s ++ [EvRequest Run.count_request;
                            EvRequest Run.chain_request;
                            EvRequest (Run.send_request payload)]).
Proof.
  unfold Faucet.submit, Run.fetched, Run.encodes, Run.assembled,
    Faucet.envelope.
  unfold promise_all2, PublicClient.getMessageCount, PublicClient.chainId,
    PublicClient.sendRawMessage, PublicClient.request, perform, bind, lift,
    ret.
  fold Run.count_request Run.chain_request.
  intros H.
  repeat (break_match H; simpl in * );
    inversion H; subst; simpl; rewrite <- ?app_assoc; simpl;
    first
      [ left; eexists; split; reflexivity
      | right; do 3 eexists;
        split; [reflexivity | ];
        split; [reflexivity | ];
        split; [ | reflexivity];
        do 2 eexists;
        split; [do 3 eexists; repeat split; eassumption | ];
        split; [eassumption | reflexivity] ].
Qed.

Lemma attempt_cases (s s' : State World) (r : Result (option Hex)) :
  attempt s = (r, s') ->
  (exists e, submit s = (Err e, s') /\ r = Err e) \/
  (exists hash s1 rr,
     submit s = (Ok hash, s1) /\
     receiptsOf hash s1 = (rr, s') /\
     r = match rr with
         | Ok receipts => Ok (Faucet.classify hash receipts)
         | Err e => Err e
         end).
Proof.
  unfold Faucet.attempt, bind, ret.
  destruct (submit s) as [[hash | e] s1].
  - destruct (receiptsOf hash s1) as [[receipts | e] s2] eqn:Hr;
      intros H; inversion H; subst; right; exists hash, s1;
      eexists; repeat split; eauto.
  - intros H; inversion H; subst. left. exists e. split; reflexivity.
Qed.

Lemma attempt_fresh (s s' : State World) (r : Result (option Hex)) :
  attempt s = (r, s') -> Run.fresh_attempt this address' value s s'.
Proof.
  intros H. unfold Run.fresh_attempt.
  destruct (attempt_cases _ _ _ H)
    as [(e & Hs & _) | (hash & s1 & rr & Hs & Hr & _)].
  - destruct (submit_cases _ _ _ Hs)
      as [(e' & _ & Ht) | (sq & ch & p & H1 & H2 & He & Ht)].
    + exists []. split; [exact Ht | left; reflexivity].
    + exists [EvRequest (Run.send_request p)].
      split; [exact Ht | right].
      exists sq, ch, p. repeat split; assumption.
  - destruct (submit_cases _ _ _ Hs)
      as [(e' & Habs & _) | (sq & ch & p & H1 & H2 & He & Ht)];
      [discriminate | ].
    destruct (receiptsOf_quiet _ _ _ _ Hr) as (rest & Ht' & Hown & _).
    exists (EvRequest (Run.send_request p) :: rest).
    split.
    + rewrite Ht', Ht, <- app_assoc. reflexivity.
    + right. exists sq, ch, p.
      split; [exact H1 | ]. split; [exact H2 | ]. split; [exact He | ].
      simpl. rewrite Hown. reflexivity.
Qed.

Lemma fresh_attempt_backoff (s s' : State World) :
  Run.fresh_attempt this address' value s s' ->
  Run.fresh_attempt this address' value s (Run.after_backoff s').
Proof.
  intros (rest & Ht & Hreq).
  exists (rest ++ [EvTimer 1000]). split.
  - simpl. rewrite Ht, <- !app_assoc. reflexivity.
  - rewrite own_requests_app. simpl. rewrite app_nil_r. exact Hreq.
Qed.

(** The loop body in terms of the attempt. *)
Lemma iteration_unfold (retry currentRetry : Z) (s : State World) :
  iteration retry currentRetry s =
  match attempt s with
  | (Ok r, s') => (Ok r, s')
  | (Err e, s') =>
      if currentRetry >=? retry then (Err e, Run.after_backoff s')
      else (Ok None, Run.after_backoff s')
  end.
Proof.
  unfold Faucet.iteration, try_catch, bind, sleep, log, throw, ret.
  destruct (attempt s) as [[r | e] s']; [reflexivity | ].
  destruct (currentRetry >=? retry); reflexivity.
Qed.

Lemma iteration_fresh (retry currentRetry : Z) (s s' : State World)
    (r : Result (option Hex)) :
  iteration retry currentRetry s = (r, s') ->
  Run.fresh_attempt this address' value s s'.
Proof.
  rewrite iteration_unfold.
  destruct (attempt s) as [[r' | e] s1] eqn:Ha.
  - intros H; inversion H; subst. exact (attempt_fresh _ _ _ Ha).
  - destruct (currentRetry >=? retry); intros H; inversion H; subst;
      apply fresh_attempt_backoff; exact (attempt_fresh _ _ _ Ha).
Qed.

(** *** How the loop goes on after one attempt *)

Lemma loop_exit (retry currentRetry : Z) (s : State World) :
  retry <= currentRetry ->
  while_loop retry currentRetry s = (Err Faucet.failure, s).
Proof.
  intros Hle. rewrite while_loop_unfold.
  destruct (Z.ltb_spec currentRetry retry); [lia | reflexivity].
Qed.

Lemma loop_return (retry currentRetry : Z) (s s' : State World)
    (hash : Hex) :
  currentRetry < retry ->
  attempt s = (Ok (Some hash), s') ->
  while_loop retry currentRetry s = (Ok hash, s').
Proof.
  intros Hlt Ha. rewrite while_loop_unfold, iteration_unfold, Ha.
  destruct (Z.ltb_spec currentRetry retry); [reflexivity | lia].
Qed.

Lemma loop_continue (retry currentRetry : Z) (s s' : State World) :
  currentRetry < retry ->
  attempt s = (Ok None, s') ->
  while_loop retry currentRetry s = while_loop retry (currentRetry + 1) s'.
Proof.
  intros Hlt Ha. rewrite while_loop_unfold, iteration_unfold, Ha.
  destruct (Z.ltb_spec currentRetry retry); [reflexivity | lia].
Qed.

Lemma loop_backoff (retry currentRetry : Z) (s s1 : State World)
    (e : error) :
  currentRetry + 1 < retry ->
  attempt s = (Err e, s1) ->
  while_loop retry currentRetry s
  = while_loop retry (currentRetry + 1) (Run.after_backoff s1).
Proof.
  intros Hlt Ha. rewrite while_loop_unfold, iteration_unfold, Ha.
  destruct (Z.ltb_spec currentRetry retry); [ | lia].
  destruct (Z.geb_spec (currentRetry + 1) retry); [lia | reflexivity].
Qed.

Lemma loop_propagate (retry currentRetry : Z) (s s1 : State World)
    (e : error) :
  currentRetry < retry -> retry <= currentRetry + 1 ->
  attempt s = (Err e, s1) ->
  while_loop retry currentRetry s = (Err e, Run.after_backoff s1).
Proof.
  intros Hlt Hlast Ha. rewrite while_loop_unfold, iteration_unfold, Ha.
  destruct (Z.ltb_spec currentRetry retry); [ | lia].
  destruct (Z.geb_spec (currentRetry + 1) retry); [reflexivity | lia].
Qed.

(** *** The classification of a receipt chain *)

Lemma existsb_failure (receipts : list IReceipt) :
  existsb (fun receipt => negb (success receipt)) receipts = true <->
  exists r, In r receipts /\ success r = false.
Proof.
  rewrite existsb_exists. split; intros (r & Hin & Hr); exists r;
    (split; [exact Hin | ]); destruct (success r); auto; discriminate.
Qed.

Lemma classify_confirmed (hash : Hex) (receipts : list IReceipt) :
  Faucet.classify hash receipts = Some hash <-> Run.confirmed receipts.
Proof.
  unfold Faucet.classify, Run.confirmed.
  destruct receipts as [ | r0 rest].
  - simpl. split; [discriminate | intros [H _]; congruence].
  - change (List.length (r0 :: rest) =? 0)%nat with false. cbv iota.
    destruct (existsb _ (r0 :: rest)) eqn:Hex.
    + apply existsb_failure in Hex. destruct Hex as (r & Hin & Hr).
      split; [discriminate | ].
      intros [_ Hall]. rewrite (Hall r Hin) in Hr. discriminate.
    + split; [ | reflexivity]. intros _. split; [discriminate | ].
      intros r Hin. destruct (success r) eqn:Hr; [reflexivity | ].
      assert (Habs : existsb (fun receipt => negb (success receipt))
                       (r0 :: rest) = true)
        by (apply existsb_failure; exists r; auto).
      congruence.
Qed.

Lemma classify_unconfirmed (hash : Hex) (receipts : list IReceipt) :
  Faucet.classify hash receipts = None <-> Run.unconfirmed receipts.
Proof.
  unfold Faucet.classify, Run.unconfirmed.
  destruct receipts as [ | r0 rest].
  - simpl. split; auto.
  - change (List.length (r0 :: rest) =? 0)%nat with false. cbv iota.
    destruct (existsb _ (r0 :: rest)) eqn:Hex.
    + apply existsb_failure in Hex. split; auto.
    + split; [discriminate | ].
      intros [Habs | Hfail]; [discriminate | ].
      apply existsb_failure in Hfail. congruence.
Qed.

Lemma observes_attempt (s s' : State World) (hash : Hex)
    (receipts : list IReceipt) :
  Run.observes this address' value s hash receipts s' ->
  attempt s = (Ok (Faucet.classify hash receipts), s').
Proof.
  intros (s1 & Hs & Hr). unfold Faucet.attempt, bind, ret.
  rewrite Hs, Hr. reflexivity.
Qed.

Lemma observes_submits_once (s s' : State World) (hash : Hex)
    (receipts : list IReceipt) :
  Run.observes this address' value s hash receipts s' ->
  submissions (trace s') = (submissions (trace s) + 1)%nat.
Proof.
  intros (s1 & Hs & Hr).
  destruct (submit_cases _ _ _ Hs)
    as [(e & Habs & _) | (sq & ch & p & _ & _ & _ & Ht)]; [discriminate | ].
  destruct (receiptsOf_quiet _ _ _ _ Hr) as (rest & Ht' & _ & Hno).
  rewrite Ht', Ht, !submissions_app, Hno.
  unfold submissions at 2; simpl. lia.
Qed.

Lemma unsuccessful_continues (retry currentRetry : Z) (s s' : State World) :
  currentRetry + 1 < retry ->
  Run.unsuccessful this address' value s s' ->
  while_loop retry currentRetry s = while_loop retry (currentRetry + 1) s'.
Proof.
  intros Hlt Hun. destruct Hun as [s s' (hash & receipts & Hobs & Hun) | s e s1 Ha].
  - apply loop_continue; [lia | ].
    rewrite (observes_attempt _ _ _ _ Hobs).
    apply classify_unconfirmed with (hash := hash) in Hun.
    rewrite Hun. reflexivity.
  - apply loop_backoff with (e := e); assumption.
Qed.

Lemma unsuccessful_run_continues (retry : Z) (k : nat) :
  forall (currentRetry : Z) (s s_k : State World),
    currentRetry + Z.of_nat k < retry ->
    iterated (Run.unsuccessful this address' value) k s s_k ->
    while_loop retry currentRetry s
    = while_loop retry (currentRetry + Z.of_nat k) s_k.
Proof.
  induction k as [ | k IH]; intros currentRetry s s_k Hlt Hrun;
    inversion Hrun; subst.
  - rewrite Z.add_0_r. reflexivity.
  - rewrite (unsuccessful_continues retry currentRetry s s1); [ | lia | assumption].
    rewrite (IH (currentRetry + 1) s1 s_k); [ | lia | assumption].
    f_equal. lia.
Qed.

Lemma reported_failure_run (retry : Z) (k : nat) :
  forall (currentRetry : Z) (s s' : State World),
    currentRetry + Z.of_nat k <= retry ->
    iterated (Run.reported_failure this address' value) k s s' ->
    while_loop retry currentRetry s
    = while_loop retry (currentRetry + Z.of_nat k) s' /\
    submissions (trace s') = (submissions (trace s) + k)%nat.
Proof.
  induction k as [ | k IH]; intros currentRetry s s' Hle Hrun;
    inversion Hrun as [ | k' s0 s1 s2 (hash & receipts & Hobs & Hun) Hrest];
    subst.
  - rewrite Z.add_0_r, Nat.add_0_r. split; reflexivity.
  - destruct (IH (currentRetry + 1) s1 s') as [Heq Hcount];
      [lia | assumption | ].
    split.
    + rewrite (loop_continue retry currentRetry s s1); [ | lia | ].
      * rewrite Heq. f_equal. lia.
      * rewrite (observes_attempt _ _ _ _ Hobs).
        apply classify_unconfirmed with (hash := hash) in Hun.
        rewrite Hun. reflexivity.
    + rewrite Hcount, (observes_submits_once _ _ _ _ Hobs). lia.
Qed.

(** The whole run is a sequence of at most [retry] fresh attempts. *)
Lemma loop_fresh (retry : Z) (n : nat) :
  forall (currentRetry : Z) (s : State World),
    Z.to_nat (retry - currentRetry) = n ->
    exists k,
      (k <= n)%nat /\
      iterated (Run.fresh_attempt this address' value) k s
        (snd (while_loop retry currentRetry s)).
Proof.
  induction n as [ | n IH]; intros currentRetry s Hn.
  - exists 0%nat. rewrite loop_exit by lia. split; [lia | constructor].
  - rewrite while_loop_unfold.
    destruct (Z.ltb_spec currentRetry retry); [ | lia].
    destruct (iteration retry (currentRetry + 1) s) as [r s1] eqn:Hit.
    pose proof (iteration_fresh _ _ _ _ _ Hit) as Hfresh.
    destruct r as [[hash | ] | e].
    + exists 1%nat. split; [lia | ]. simpl.
      apply iterated_S with (s1 := s1); [assumption | constructor].
    + destruct (IH (currentRetry + 1) s1) as (k & Hk & Hrun); [lia | ].
      exists (S k). split; [lia | ].
      apply iterated_S with (s1 := s1); assumption.
    + exists 1%nat. split; [lia | ]. simpl.
      apply iterated_S with (s1 := s1); [assumption | constructor].
Qed.

Lemma fresh_attempt_extends (s s' : State World) :
  Run.fresh_attempt this address' value s s' ->
  exists rest,
    trace s' = trace s ++ [EvRequest Run.count_request;
                           EvRequest Run.chain_request] ++ rest.
Proof. intros (rest & Ht & _). exists rest. exact Ht. Qed.

Lemma fresh_run_extends (k : nat) :
  forall (s s' : State World),
    iterated (Run.fresh_attempt this address' value) k s s' ->
    exists rest, trace s' = trace s ++ rest.
Proof.
  induction k as [ | k IH]; intros s s' Hrun; inversion Hrun; subst.
  - exists []. symmetry. apply app_nil_r.
  - destruct (fresh_attempt_extends _ _ H0) as (rest1 & Ht1).
    destruct (IH _ _ H1) as (rest2 & Ht2).
    eexists. rewrite Ht2, Ht1, <- app_assoc. reflexivity.
Qed.

(** A loop that is entered starts with the two fetches. *)
Lemma loop_starts_with_fetches (retry currentRetry : Z) (s : State World) :
  currentRetry < retry ->
  exists rest,
    trace (snd (while_loop retry currentRetry s))
    = trace s ++ [EvRequest Run.count_request;
                  EvRequest Run.chain_request] ++ rest.
Proof.
  intros Hlt. rewrite while_loop_unfold.
  destruct (Z.ltb_spec currentRetry retry); [ | lia].
  destruct (iteration retry (currentRetry + 1) s) as [r s1] eqn:Hit.
  destruct (fresh_attempt_extends _ _ (iteration_fresh _ _ _ _ _ Hit))
    as (rest1 & Ht1).
  destruct r as [[hash | ] | e]; simpl; try (exists rest1; exact Ht1).
  destruct (loop_fresh retry _ (currentRetry + 1) s1 eq_refl)
    as (k & _ & Hrun).
  destruct (fresh_run_extends _ _ _ Hrun) as (rest2 & Ht2).
  exists (rest1 ++ rest2).
  rewrite Ht2, Ht1, <- !app_assoc. reflexivity.
Qed.

(** A loop that is entered makes the attempt from the state it is in, and
    goes on from what that attempt leaves. *)
Lemma loop_extends_attempt (retry currentRetry : Z) (s : State World) :
  currentRetry < retry ->
  exists later,
    trace (snd (while_loop retry currentRetry s))
    = trace (snd (attempt s)) ++ later.
Proof.
  intros Hlt. rewrite while_loop_unfold, iteration_unfold.
  destruct (Z.ltb_spec currentRetry retry); [ | lia].
  destruct (attempt s) as [[[hash | ] | e] s1]; simpl.
  - exists []. symmetry. apply app_nil_r.
  - destruct (loop_fresh retry _ (currentRetry + 1) s1 eq_refl)
      as (k & _ & Hrun).
    exact (fresh_run_extends _ _ _ Hrun).
  - destruct (currentRetry + 1 >=? retry); simpl.
    + exists [EvTimer 1000]. reflexivity.
    + destruct (loop_fresh retry _ (currentRetry + 1) (Run.after_backoff s1)
                  eq_refl) as (k & _ & Hrun).
      destruct (fresh_run_extends _ _ _ Hrun) as (rest & Ht).
      exists ([EvTimer 1000] ++ rest).
      rewrite Ht. simpl. rewrite <- app_assoc. reflexivity.
Qed.

(** The payload is determined by the two numbers fetched. *)
Lemma encodes_functional (seqno chainId : Z) (p p' : Hex) :
  Run.encodes this address' value seqno chainId p ->
  Run.encodes this address' value seqno chainId p' ->
  p = p'.
Proof.
  intros (e & enc & (cd & to & data & Hc & Ht & Hd & He) & Henc & Hp)
         (e' & enc' & (cd' & to' & data' & Hc' & Ht' & Hd' & He') & Henc' & Hp').
  assert (cd' = cd) by congruence. subst cd'.
  assert (to' = to) by congruence.
  assert (data' = data) by congruence.
  subst to' data'. subst e e'.
  assert (enc' = enc) by congruence.
  subst. reflexivity.
Qed.

(** An error that leaves the loop is the final failure or was thrown by an
    attempt, after whose backoff nothing else happened. *)
Lemma loop_error (retry : Z) (n : nat) :
  forall (currentRetry : Z) (s s' : State World) (e : error),
    Z.to_nat (retry - currentRetry) = n ->
    while_loop retry currentRetry s = (Err e, s') ->
    e = Faucet.failure \/
    exists s0 s1, attempt s0 = (Err e, s1) /\ s' = Run.after_backoff s1.
Proof.
  induction n as [ | n IH]; intros currentRetry s s' e Hn.
  - rewrite loop_exit by lia. intros Hres; inversion Hres; subst. left; reflexivity.
  - rewrite while_loop_unfold, iteration_unfold.
    destruct (Z.ltb_spec currentRetry retry); [ | lia].
    destruct (attempt s) as [[[hash | ] | e0] s1] eqn:Ha.
    + discriminate.
    + apply IH. lia.
    + destruct (currentRetry + 1 >=? retry).
      * intros Hres; inversion Hres; subst. right. exists s, s1. split; auto.
      * apply IH. lia.
Qed.

End Facts.

Section Claims.

Variable World : Type.
Variable this : Faucet.t World.
Variable address' : Hex.
Variable value : option Z.
Variable retry : option Z.

Local Abbreviation value' := (default value 1000000000000000000).
Local Abbreviation retry' := (default retry 5).
Local Abbreviation withdraw :=
  (Faucet.withdrawToWithRetry this address' value retry).

Lemma withdraw_is_loop (s : State World) :
  withdraw s = Faucet.while_loop this address' value' retry' 0 s.
Proof. reflexivity. Qed.

(** C3, amended.  When each of the [retry] attempts gets a receipt chain
    that is empty at the deadline or holds a failed receipt, the call makes
    exactly [retry] submissions and fails with
    [Error("Failed to withdraw to the given address")]; that error has no
    cause.  Any error the call fails with is this one or the error an
    attempt threw, unwrapped. *)
Theorem unconfirmed_attempts_exhaust_retries (s : State World) :
  (forall s',
     iterated (Run.reported_failure this address' value')
       (Z.to_nat retry') s s' ->
     withdraw s = (Err Faucet.failure, s') /\
     submissions (trace s')
     = (submissions (trace s) + Z.to_nat retry')%nat) /\
  error_cause Faucet.failure = None /\
  (forall e s',
     withdraw s = (Err e, s') ->
     e = Faucet.failure \/
     exists s0 s1,
       Faucet.attempt this address' value' s0 = (Err e, s1) /\
       s' = Run.after_backoff s1).
Proof.
  split; [ | split].
  - intros s' Hrun. rewrite withdraw_is_loop.
    destruct (Z.le_gt_cases 0 retry') as [Hpos | Hneg].
    + destruct (reported_failure_run World this address' value' retry'
                  (Z.to_nat retry') 0 s s') as [Heq Hcount];
        [lia | assumption | ].
      split; [ | exact Hcount].
      rewrite Heq. apply loop_exit. lia.
    + replace (Z.to_nat retry') with 0%nat in * by lia.
      inversion Hrun; subst.
      split; [apply loop_exit; lia | lia].
  - reflexivity.
  - intros e s'. rewrite withdraw_is_loop.
    apply loop_error with (n := Z.to_nat (retry' - 0)). reflexivity.
Qed.

(** C4.  If the first [k] attempts did not succeed and the next one, still
    within the budget, collects a chain that is non-empty with every
    receipt successful, the call returns the hash of that attempt and ends
    in the state that attempt left: nothing is sent afterwards.  An attempt
    returns its hash exactly when its chain is non-empty and all its
    receipts have [success = true]. *)
Theorem first_confirmed_attempt_returns_hash :
  (forall (s s_k s' : State World) (k : nat) (hash : Hex)
          (receipts : list IReceipt),
     Z.of_nat k < retry' ->
     iterated (Run.unsuccessful this address' value') k s s_k ->
     Run.observes this address' value' s_k hash receipts s' ->
     Run.confirmed receipts ->
     withdraw s = (Ok hash, s')) /\
  (forall (hash : Hex) (receipts : list IReceipt),
     Faucet.classify hash receipts = Some hash <-> Run.confirmed receipts) /\
  (forall (hash : Hex) (receipts : list IReceipt),
     receipts <> [] ->
     (Faucet.classify hash receipts = Some hash <->
      forall r, In r receipts -> success r = true)).
Proof.
  split; [ | split].
  - intros s s_k s' k hash receipts Hk Hrun Hobs Hconf.
    rewrite withdraw_is_loop.
    rewrite (unsuccessful_run_continues World this address' value' retry'
               k 0 s s_k) by (assumption || lia).
    apply loop_return; [lia | ].
    rewrite (observes_attempt _ _ _ _ _ _ _ _ Hobs).
    apply classify_confirmed with (hash := hash) in Hconf.
    rewrite Hconf. reflexivity.
  - apply classify_confirmed.
  - intros hash receipts Hne. rewrite classify_confirmed.
    unfold Run.confirmed. tauto.
Qed.

(** C5, amended.  Whenever the budget allows an attempt after [k]
    unsuccessful ones, that attempt is made from the state they left: it
    first asks the node for the faucet's message count and for the chain
    id, builds the envelope (not a deploy, to the faucet, the call data,
    no signature) from the two answers and, receipt polls apart, requests
    nothing else but the one submission of that envelope's encoding; the
    call goes on from what the attempt leaves.  The payload is determined
    by the two answers: an attempt that is answered as the one before
    submits the same bytes again. *)
Theorem every_attempt_fetches_and_builds_afresh
    (s s_k : State World) (k : nat) :
  Z.of_nat k < retry' ->
  iterated (Run.unsuccessful this address' value') k s s_k ->
  Run.fresh_attempt this address' value' s_k
    (snd (Faucet.attempt this address' value' s_k)) /\
  (exists later,
     trace (snd (withdraw s))
     = trace (snd (Faucet.attempt this address' value' s_k)) ++ later) /\
  (forall seqno chainId payload payload',
     Run.encodes this address' value' seqno chainId payload ->
     Run.encodes this address' value' seqno chainId payload' ->
     payload = payload').
Proof.
  intros Hk Hrun. split; [ | split].
  - destruct (Faucet.attempt this address' value' s_k) as [r s'] eqn:Ha.
    exact (attempt_fresh World this address' value' s_k s' r Ha).
  - rewrite withdraw_is_loop.
    rewrite (unsuccessful_run_continues World this address' value' retry'
               k 0 s s_k) by (assumption || lia).
    apply loop_extends_attempt. lia.
  - apply encodes_functional.
Qed.

(** C6.  When an attempt throws, the backoff of 1000 ms is slept.  If the
    budget allows another attempt, the loop goes on from there and the next
    thing the client does is to fetch the message count and the chain id
    again; if the attempt was the last one, the error it threw is the
    error of the call. *)
Theorem thrown_attempt_backs_off_then_retries_or_propagates
    (s s_k s1 : State World) (k : nat) (e : error) :
  Z.of_nat k < retry' ->
  iterated (Run.unsuccessful this address' value') k s s_k ->
  Faucet.attempt this address' value' s_k = (Err e, s1) ->
  (Z.of_nat k + 1 < retry' ->
   withdraw s
   = Faucet.while_loop this address' value' retry' (Z.of_nat k + 1)
       (Run.after_backoff s1) /\
   exists rest,
     trace (snd (withdraw s))
     = trace s1 ++ [EvTimer 1000; EvRequest Run.count_request;
                    EvRequest Run.chain_request] ++ rest) /\
  (retry' <= Z.of_nat k + 1 ->
   withdraw s = (Err e, Run.after_backoff s1)).
Proof.
  intros Hk Hrun Ha.
  assert (Hprefix :
    withdraw s = Faucet.while_loop this address' value' retry' (Z.of_nat k) s_k).
  { rewrite withdraw_is_loop.
    rewrite (unsuccessful_run_continues World this address' value' retry'
               k 0 s s_k) by (assumption || lia).
    reflexivity. }
  split.
  - intros Hmore.
    assert (Hnext :
      withdraw s
      = Faucet.while_loop this address' value' retry' (Z.of_nat k + 1)
          (Run.after_backoff s1)).
    { rewrite Hprefix. apply loop_backoff with (e := e); assumption. }
    split; [exact Hnext | ].
    rewrite Hnext.
    destruct (loop_starts_with_fetches World this address' value' retry'
                (Z.of_nat k + 1) (Run.after_backoff s1) Hmore)
      as (rest & Ht).
    exists rest. rewrite Ht. simpl. rewrite <- app_assoc. reflexivity.
  - intros Hlast. rewrite Hprefix.
    apply loop_propagate; assumption.
Qed.

End Claims.

(** C8.  With [retry <= 0] the loop body is never entered: the call fails
    at once with [Error("Failed to withdraw to the given address")] and
    the state is the one it started in, so no request was made. *)
Theorem nonpositive_retry_fails_without_requests
    (World : Type) (this : Faucet.t World) (address' : Hex)
    (value : option Z) (retry : Z) (s : State World) :
  retry <= 0 ->
  Faucet.withdrawToWithRetry this address' value (Some retry) s
  = (Err Faucet.failure, s) /\
  rpc_calls
    (trace (snd (Faucet.withdrawToWithRetry this address' value
                   (Some retry) s)))
  = rpc_calls (trace s).
Proof.
  intros Hle.
  assert (H : Faucet.withdrawToWithRetry this address' value (Some retry) s
              = (Err Faucet.failure, s)).
  { unfold Faucet.withdrawToWithRetry. apply loop_exit. exact Hle. }
  rewrite H. split; reflexivity.
Qed.

End FaucetFacts.

(** *** Runs against the mock node *)

Module FaucetRuns.

Local Abbreviation wei := Mock.wei.

(** Two attempts, both answered with a chain that holds a failed receipt:
    two submissions, then the final failure. *)
Lemma unconfirmed_attempts_exhaust_retries_witness :
  let f := Mock.faucet Mock.nothing Mock.failing in
  let s1 := snd (Faucet.attempt f Mock.target wei Mock.start) in
  let s2 := snd (Faucet.attempt f Mock.target wei s1) in
  Faucet.withdrawToWithRetry f Mock.target None (Some 2) Mock.start
  = (Err Faucet.failure, s2) /\
  submissions (trace s2) = 2%nat.
Proof.
  intros f s1 s2.
  assert (Hrun : iterated (Run.reported_failure f Mock.target wei)
                   2 Mock.start s2).
  { apply iterated_S with (s1 := s1);
      [ | apply iterated_S with (s1 := s2); [ | constructor]].
    - exists "0x00", [mkReceipt true; mkReceipt false]. split.
      + exists (snd (Faucet.submit f Mock.target wei Mock.start)).
        split; reflexivity.
      + right. exists (mkReceipt false).
        split; [right; left; reflexivity | reflexivity].
    - exists "0x01", [mkReceipt true; mkReceipt false]. split.
      + exists (snd (Faucet.submit f Mock.target wei s1)).
        split; reflexivity.
      + right. exists (mkReceipt false).
        split; [right; left; reflexivity | reflexivity]. }
  destruct (FaucetFacts.unconfirmed_attempts_exhaust_retries
              Mock.World f Mock.target None (Some 2) Mock.start)
    as [Hexhaust _].
  exact (Hexhaust s2 Hrun).
Defined.

(** C3 as stated fails.  With a budget of one attempt and a node that
    refuses the submission, the budget is exhausted and the error raised is
    the transport's own, not the retry-exhaustion failure; and when the
    failure is raised, after two unconfirmed attempts, it wraps no cause. *)
Lemma retry_exhaustion_counterexample :
  (let f := Mock.faucet (Mock.always "eth_sendRawTransaction") Mock.failing in
   let r := Faucet.withdrawToWithRetry f Mock.target None (Some 1)
              Mock.start in
   fst r = Err (Rejected "connection refused") /\
   fst r <> Err Faucet.failure /\
   submissions (trace (snd r)) = 1%nat) /\
  (let f := Mock.faucet Mock.nothing Mock.failing in
   let r := Faucet.withdrawToWithRetry f Mock.target None (Some 2)
              Mock.start in
   fst r = Err Faucet.failure /\
   error_cause Faucet.failure = None).
Proof.
  split; cbv zeta.
  - split; [reflexivity | split; [ | reflexivity]].
    intros Habs. vm_compute in Habs. discriminate Habs.
  - split; reflexivity.
Qed.

(** Nothing by the deadline for the first attempt, a confirmed chain for
    the second: the call returns the second hash. *)
Lemma first_confirmed_attempt_returns_hash_witness :
  let f := Mock.faucet Mock.nothing (Mock.confirmingAfter 1) in
  let s1 := snd (Faucet.attempt f Mock.target wei Mock.start) in
  let s2 := snd (Faucet.attempt f Mock.target wei s1) in
  Faucet.withdrawToWithRetry f Mock.target None None Mock.start
  = (Ok "0x01", s2).
Proof.
  intros f s1 s2.
  destruct (FaucetFacts.first_confirmed_attempt_returns_hash
              Mock.World f Mock.target None None) as [Hreturn _].
  apply (Hreturn Mock.start s1 s2 1%nat "0x01"
           [mkReceipt true; mkReceipt true]).
  - reflexivity.
  - apply iterated_S with (s1 := s1); [ | constructor].
    apply Run.unsuccessful_receipts.
    exists "0x00", []. split.
    + exists (snd (Faucet.submit f Mock.target wei Mock.start)).
      split; reflexivity.
    + left. reflexivity.
  - exists (snd (Faucet.submit f Mock.target wei s1)).
    split; reflexivity.
  - split; [discriminate | ].
    intros r [Hr | [Hr | []]]; subst; reflexivity.
Defined.

(** After a first attempt with nothing by the deadline, the second attempt
    fetches the message count and the chain id again, both 1 by now, and
    submits the envelope for these. *)
Lemma every_attempt_fetches_and_builds_afresh_witness :
  let f := Mock.faucet Mock.nothing (Mock.confirmingAfter 1) in
  let s1 := snd (Faucet.attempt f Mock.target wei Mock.start) in
  let s2 := snd (Faucet.attempt f Mock.target wei s1) in
  Run.fresh_attempt f Mock.target wei s1 s2 /\
  own_requests (trace s2)
  = own_requests (trace s1)
    ++ [Run.count_request; Run.chain_request;
        Run.send_request "0x0101a905"].
Proof.
  intros f s1 s2.
  destruct (FaucetFacts.every_attempt_fetches_and_builds_afresh
              Mock.World f Mock.target None None Mock.start s1 1%nat)
    as (Hfresh & _ & _).
  - reflexivity.
  - apply iterated_S with (s1 := s1); [ | constructor].
    apply Run.unsuccessful_receipts.
    exists "0x00", []. split.
    + exists (snd (Faucet.submit f Mock.target wei Mock.start)).
      split; reflexivity.
    + left. reflexivity.
  - split; [exact Hfresh | reflexivity].
Defined.

(** C5 as stated fails.  On a node where the submitted message stays
    pending, the message count does not move and no receipt appears: the
    first attempt finds the receipt chain empty at the deadline, and the
    retried attempt, having fetched the same two numbers again, submits the
    same encoded envelope a second time. *)
Lemma stalled_node_counterexample :
  let f := Mock.stalledFaucet in
  let s1 := snd (Faucet.attempt f Mock.target wei Mock.start) in
  let s2 := snd (Faucet.attempt f Mock.target wei s1) in
  let poll := mkRequest "eth_getInMessageReceipt" [JNum 1; JStr "0x00"] in
  Run.observes f Mock.target wei Mock.start "0x00" [] s1 /\
  trace s1
  = [EvRequest Run.count_request; EvRequest Run.chain_request;
     EvRequest (Run.send_request "0x0000a905"); EvRequest poll;
     EvWaitTillCompleted 1 "0x00"; EvTimer 10000] /\
  trace s2
  = trace s1
    ++ [EvRequest Run.count_request; EvRequest Run.chain_request;
        EvRequest (Run.send_request "0x0000a905"); EvRequest poll;
        EvWaitTillCompleted 1 "0x00"; EvTimer 10000] /\
  Faucet.withdrawToWithRetry f Mock.target None (Some 2) Mock.start
  = (Err Faucet.failure, s2).
Proof.
  cbv zeta. split; [ | split; [ | split]]; try reflexivity.
  exists (snd (Faucet.submit Mock.stalledFaucet Mock.target wei Mock.start)).
  split; reflexivity.
Qed.

(** The node refuses the first submission only.  With two attempts allowed
    the client sleeps and goes on; with one, the refusal is the error of
    the call. *)
Lemma thrown_attempt_witness :
  let f := Mock.faucet (Mock.before 1 "eth_sendRawTransaction")
             (Mock.confirmingAfter 0) in
  let s1 := snd (Faucet.attempt f Mock.target wei Mock.start) in
  Faucet.withdrawToWithRetry f Mock.target None (Some 2) Mock.start
  = Faucet.while_loop f Mock.target wei 2 1 (Run.after_backoff s1) /\
  Faucet.withdrawToWithRetry f Mock.target None (Some 1) Mock.start
  = (Err (Rejected "connection refused"), Run.after_backoff s1).
Proof.
  intros f s1. split.
  - apply (FaucetFacts.thrown_attempt_backs_off_then_retries_or_propagates
             Mock.World f Mock.target None (Some 2)
             Mock.start Mock.start s1 0%nat
             (Rejected "connection refused")).
    + reflexivity.
    + constructor.
    + reflexivity.
    + reflexivity.
  - apply (FaucetFacts.thrown_attempt_backs_off_then_retries_or_propagates
             Mock.World f Mock.target None (Some 1)
             Mock.start Mock.start s1 0%nat
             (Rejected "connection refused")).
    + reflexivity.
    + constructor.
    + reflexivity.
    + discriminate.
Defined.

(** A budget of [-3]: the failure, and the state untouched. *)
Lemma nonpositive_retry_witness :
  let f := Mock.faucet Mock.nothing (Mock.confirmingAfter 0) in
  Faucet.withdrawToWithRetry f Mock.target None (Some (-3)) Mock.start
  = (Err Faucet.failure, Mock.start).
Proof.
  intros f.
  apply (FaucetFacts.nonpositive_retry_fails_without_requests
           Mock.World f Mock.target None (-3) Mock.start).
  discriminate.
Defined.

End FaucetRuns.

(** ** AddressDeriver *)

Module AddressDeriverFacts.

Lemma Z_of_byte_of_Z (z : Z) : Z_of_byte (byte_of_Z z) = z mod 256.
Proof.
  unfold Z_of_byte, byte_of_Z.
  assert (Hrange : 0 <= z mod 256 < 256) by (apply Z.mod_pos_bound; lia).
  destruct (Byte.of_N (Z.to_N (z mod 256))) as [b | ] eqn:Hb.
  - apply Byte.to_of_N in Hb. rewrite Hb. lia.
  - apply Byte.of_N_None_iff in Hb. lia.
Qed.

Lemma be_value_snoc (b : bytes) (x : byte) :
  be_value (b ++ [x]) = be_value b * 256 + Z_of_byte x.
Proof. unfold be_value. rewrite fold_left_app. reflexivity. Qed.

Lemma be_bytes_length (w : nat) : forall z, List.length (be_bytes w z) = w.
Proof.
  induction w as [ | w IH]; intros z; simpl; [reflexivity | ].
  rewrite length_app, IH. simpl. lia.
Qed.

(** Reading back the [w] bytes written for [z] gives [z] modulo [256^w]. *)
Lemma be_value_be_bytes (w : nat) :
  forall z, be_value (be_bytes w z) = z mod 256 ^ Z.of_nat w.
Proof.
  induction w as [ | w IH]; intros z.
  - simpl. rewrite Z.mod_1_r. reflexivity.
  - simpl be_bytes. rewrite be_value_snoc, IH, Z_of_byte_of_Z.
    rewrite Nat2Z.inj_succ, Z.pow_succ_r by lia.
    rewrite Z.rem_mul_r by lia. lia.
Qed.

Lemma be_value_be_bytes_id (w : nat) (z : Z) :
  0 <= z < 256 ^ Z.of_nat w -> be_value (be_bytes w z) = z.
Proof.
  intros Hz. rewrite be_value_be_bytes. apply Z.mod_small. exact Hz.
Qed.

Lemma trailing_length (n : nat) (b : bytes) :
  (n <= List.length b)%nat -> List.length (trailing n b) = n.
Proof. intros Hn. unfold trailing. rewrite length_skipn. lia. Qed.

Lemma firstn_prefix (b rest : bytes) :
  firstn (List.length b) (b ++ rest) = b.
Proof.
  rewrite firstn_app, Nat.sub_diag, firstn_all. simpl. apply app_nil_r.
Qed.

Section Facts.

Variable net : AddressDeriver.Network.
Hypothesis net_ok : AddressDeriver.wellFormed net.

(** C1.  On a well-formed network and for a shard id in the configured
    range, [deriveAddress] returns an address of 20 bytes whose shard field
    is the shard id given; any call with equal arguments returns this same
    address.  [calculateWalletAddress] is [deriveAddress] at the empty init
    code and has the same properties. *)
Theorem derived_address_is_deterministic_and_carries_shard
    (publicKey : bytes) (shardId salt : Z) (initCode : bytes) :
  AddressDeriver.validShardId net shardId = true ->
  (exists a,
     AddressDeriver.deriveAddress net publicKey shardId salt initCode = Ok a /\
     List.length a = AddressDeriver.addressWidth /\
     AddressDeriver.shard_of net a = shardId /\
     forall publicKey' shardId' salt' initCode',
       publicKey' = publicKey -> shardId' = shardId -> salt' = salt ->
       initCode' = initCode ->
       AddressDeriver.deriveAddress net publicKey' shardId' salt' initCode'
       = Ok a) /\
  (exists a,
     WalletV1.calculateWalletAddress net publicKey shardId salt = Ok a /\
     List.length a = AddressDeriver.addressWidth /\
     AddressDeriver.shard_of net a = shardId /\
     forall publicKey' shardId' salt',
       publicKey' = publicKey -> shardId' = shardId -> salt' = salt ->
       WalletV1.calculateWalletAddress net publicKey' shardId' salt' = Ok a).
Proof.
  intros Hvalid.
  destruct net_ok as (Hwidth & Hcount & Hdigest).
  assert (Hrange : 0 <= shardId < 256 ^ Z.of_nat (AddressDeriver.shardWidth net)).
  { unfold AddressDeriver.validShardId in Hvalid.
    apply andb_true_iff in Hvalid. destruct Hvalid as [H0 H1].
    apply Z.leb_le in H0. apply Z.ltb_lt in H1. lia. }
  assert (Hgen : forall code,
    exists a,
      AddressDeriver.deriveAddress net publicKey shardId salt code = Ok a /\
      List.length a = AddressDeriver.addressWidth /\
      AddressDeriver.shard_of net a = shardId).
  { intros code. unfold AddressDeriver.deriveAddress. rewrite Hvalid.
    eexists. split; [reflexivity | split].
    - rewrite length_app, be_bytes_length, trailing_length by apply Hdigest.
      lia.
    - unfold AddressDeriver.shard_of.
      rewrite <- (be_bytes_length (AddressDeriver.shardWidth net) shardId)
        at 1.
      rewrite firstn_prefix. apply be_value_be_bytes_id. exact Hrange. }
  split.
  - destruct (Hgen initCode) as (a & Ha & Hlen & Hshard).
    exists a. repeat split; try assumption.
    intros; subst; assumption.
  - destruct (Hgen WalletV1.emptyInitCode) as (a & Ha & Hlen & Hshard).
    exists a. repeat split; try assumption.
    intros; subst; assumption.
Qed.

End Facts.

(** Shard 1 on the mock network: the address starts with [00 01]. *)
Lemma derived_address_witness :
  exists a,
    AddressDeriver.deriveAddress Mock.network [x02; x9a] 1 100 [] = Ok a /\
    List.length a = 20%nat /\
    AddressDeriver.shard_of Mock.network a = 1 /\
    firstn 2 a = [x00; x01].
Proof.
  assert (Hnet : AddressDeriver.wellFormed Mock.network).
  { split; [simpl; unfold AddressDeriver.addressWidth; lia | ].
    split; [simpl; lia | ].
    intros sh pk salt code. simpl. unfold AddressDeriver.addressWidth. lia. }
  destruct (derived_address_is_deterministic_and_carries_shard
              Mock.network Hnet [x02; x9a] 1 100 [] eq_refl)
    as [(a & Ha & Hlen & Hshard & _) _].
  exists a. repeat split; try assumption.
  vm_compute in Ha. inversion Ha. reflexivity.
Defined.

End AddressDeriverFacts.

(** ** WalletV1 *)

Module WalletV1Facts.

Section Constructor.

Variable net : AddressDeriver.Network.
Variable defaultSalt : Z.
Hypothesis net_ok : AddressDeriver.wellFormed net.

(** The address calculated for a shard in the configured range. *)
Lemma calculated_address (pk : bytes) (sh salt : Z) :
  AddressDeriver.validShardId net sh = true ->
  exists a,
    WalletV1.calculateWalletAddress net pk sh salt = Ok a /\
    List.length a = AddressDeriver.addressWidth /\
    AddressDeriver.shard_of net a = sh.
Proof.
  intros Hvalid.
  destruct net_ok as (Hwidth & Hcount & Hdigest).
  assert (Hrange : 0 <= sh < 256 ^ Z.of_nat (AddressDeriver.shardWidth net)).
  { unfold AddressDeriver.validShardId in Hvalid.
    apply andb_true_iff in Hvalid. destruct Hvalid as [H0 H1].
    apply Z.leb_le in H0. apply Z.ltb_lt in H1. lia. }
  unfold WalletV1.calculateWalletAddress, AddressDeriver.deriveAddress.
  rewrite Hvalid. eexists. split; [reflexivity | split].
  - rewrite length_app, AddressDeriverFacts.be_bytes_length,
      AddressDeriverFacts.trailing_length by apply Hdigest.
    lia.
  - unfold AddressDeriver.shard_of.
    rewrite <- (AddressDeriverFacts.be_bytes_length
                  (AddressDeriver.shardWidth net) sh) at 1.
    rewrite AddressDeriverFacts.firstn_prefix.
    apply AddressDeriverFacts.be_value_be_bytes_id. exact Hrange.
Qed.


End Constructor.

Local Abbreviation pubkey := [x02; x9a; x51].

(** The address [calculateWalletAddress({pubKey, shardId: 1, salt: 100n})]
    of the wallet tests, on the mock network. *)
Local Abbreviation derived :=
  (be_bytes 2 1 ++ trailing 18 (repeat xaa 32)).

Lemma mock_network_ok : AddressDeriver.wellFormed Mock.network.
Proof.
  split; [simpl; unfold AddressDeriver.addressWidth; lia | ].
  split; [simpl; lia | ].
  intros sh pk salt code. simpl. unfold AddressDeriver.addressWidth. lia.
Defined.


End WalletV1Facts.

(** ** PublicClient, the other queries *)

Module PublicClientQueriesFacts.

Lemma toString10_parse10 (z : Z) : parse10 (toString10 z) = Some z.
Proof.
  unfold parse10, toString10.
  rewrite NilZero.isi.
  - simpl. rewrite DecimalZ.of_to. reflexivity.
  - destruct z as [ | p | p]; simpl; try discriminate.
    intros H. inversion H as [Hnil].
    exact (DecimalPos.Unsigned.to_uint_nonnil p Hnil).
  - destruct z as [ | p | p]; simpl; try discriminate.
    intros H. inversion H as [Hnil].
    exact (DecimalPos.Unsigned.to_uint_nonnil p Hnil).
Qed.

Lemma bigint_or_nonzero (x : option Z) (d : Z) :
  d <> 0 -> bigint_or x d <> 0.
Proof.
  intros Hd. unfold bigint_or. destruct x as [z | ]; [ | exact Hd].
  destruct (Z.eqb_spec z 0); assumption.
Qed.

Section Facts.

Variable World : Type.
Variable this : PublicClient.Client World.
Variable codec : PublicClientQueries.Codec.

(** When [assertIsValidShardId] rejects the shard id, with whatever error,
    each of the five methods that take a shard fails with that very error
    and the state is untouched: no request is made, and the block queries
    do not turn the error into a [BlockNotFoundError]. *)
Theorem invalid_shard_id_stops_before_request
    (shard : option Z) (e : error) (s : State World) :
  PublicClient.assertIsValidShardId (PublicClient.deps this)
    (PublicClient.shard_arg this shard) = Err e ->
  (forall hash fullTx,
     PublicClient.getBlockByHash this hash fullTx shard s = (Err e, s)) /\
  (forall blockNumber fullTx,
     PublicClient.getBlockByNumber this blockNumber fullTx shard s
     = (Err e, s)) /\
  (forall blockNumber,
     PublicClientQueries.getBlockMessageCountByNumber this blockNumber shard s
     = (Err e, s)) /\
  (forall hash,
     PublicClientQueries.getBlockMessageCountByHash this hash shard s
     = (Err e, s)) /\
  (forall hash,
     PublicClientQueries.getMessageReceiptByHash this hash shard s
     = (Err e, s)).
Proof.
  intros Hinvalid.
  unfold PublicClient.getBlockByHash, PublicClient.getBlockByNumber,
    PublicClientQueries.getBlockMessageCountByNumber,
    PublicClientQueries.getBlockMessageCountByHash,
    PublicClientQueries.getMessageReceiptByHash.
  unfold bind, lift. rewrite Hinvalid.
  repeat split.
Qed.

(** [call] never asks for a gas limit of zero.  The gas limit it sends is
    a decimal numeral that reads back as the caller's gas limit when that
    is given and not zero, and as 5000000 otherwise; a call with a gas
    limit of [0n] is the same call as one with no gas limit at all.  The
    value sent is the caller's, or [toHex(0n)] without one. *)
Theorem call_defaults (callArgs : CallArgs) :
  parse10 (sd_gasLimit (PublicClientQueries.sendData this codec callArgs))
  = Some (bigint_or (gasLimit callArgs) 5000000) /\
  bigint_or (gasLimit callArgs) 5000000 <> 0 /\
  (gasLimit callArgs = Some 0 ->
   forall blockNumberOrHash s,
     PublicClientQueries.call this codec callArgs blockNumberOrHash s
     = PublicClientQueries.call this codec
         (mkCallArgs (from callArgs) (callTo callArgs) (callData callArgs)
            (callValue callArgs) None)
         blockNumberOrHash s) /\
  (callValue callArgs = None ->
   sd_value (PublicClientQueries.sendData this codec callArgs)
   = PublicClientQueries.toHex codec 0).
Proof.
  split; [ | split; [ | split]].
  - apply toString10_parse10.
  - apply bigint_or_nonzero. discriminate.
  - intros Hzero block s.
    unfold PublicClientQueries.call, PublicClientQueries.sendData.
    simpl. rewrite Hzero. reflexivity.
  - intros Hnone. simpl. rewrite Hnone. reflexivity.
Qed.

Lemma request_counts (args : RequestArgs) (s : State World) :
  rpc_calls (trace (snd (PublicClient.request this args s)))
  = (rpc_calls (trace s) + 1)%nat /\
  trace (snd (PublicClient.request this args s))
  = trace s ++ [EvRequest args].
Proof.
  unfold PublicClient.request, perform.
  destruct (PublicClient.transport _ args (world s)) as [r w]. simpl.
  split; [ | reflexivity].
  unfold rpc_calls. rewrite filter_app, length_app. reflexivity.
Qed.

(** A request followed by a step that sends nothing. *)
Lemma request_then_counts {A : Type} (args : RequestArgs)
    (k : Json -> Result A) (s : State World) :
  rpc_calls
    (trace (snd (bind (PublicClient.request this args)
                   (fun res => lift (k res)) s)))
  = (rpc_calls (trace s) + 1)%nat.
Proof.
  destruct (request_counts args s) as [Hcount _].
  unfold bind, lift.
  destruct (PublicClient.request this args s) as [[res | e] s1];
    simpl in *; exact Hcount.
Qed.

(** No query retries or sends twice.  Once the shard id has passed the
    check, each of the five methods that take a shard makes exactly one
    request, whether it succeeds or fails; the six methods without a shard
    make exactly one request on any client. *)
Theorem one_request_per_query (s : State World) :
  (forall shard,
     PublicClient.assertIsValidShardId (PublicClient.deps this)
       (PublicClient.shard_arg this shard) = Ok tt ->
     (forall hash fullTx,
        rpc_calls
          (trace (snd (PublicClient.getBlockByHash this hash fullTx shard s)))
        = (rpc_calls (trace s) + 1)%nat) /\
     (forall blockNumber fullTx,
        rpc_calls
          (trace (snd (PublicClient.getBlockByNumber this blockNumber fullTx
                         shard s)))
        = (rpc_calls (trace s) + 1)%nat) /\
     (forall blockNumber,
        rpc_calls
          (trace (snd (PublicClientQueries.getBlockMessageCountByNumber this
                         blockNumber shard s)))
        = (rpc_calls (trace s) + 1)%nat) /\
     (forall hash,
        rpc_calls
          (trace (snd (PublicClientQueries.getBlockMessageCountByHash this
                         hash shard s)))
        = (rpc_calls (trace s) + 1)%nat) /\
     (forall hash,
        rpc_calls
          (trace (snd (PublicClientQueries.getMessageReceiptByHash this
                         hash shard s)))
        = (rpc_calls (trace s) + 1)%nat)) /\
  (forall address block,
     rpc_calls (trace (snd (PublicClient.getMessageCount this address block s)))
     = (rpc_calls (trace s) + 1)%nat) /\
  rpc_calls (trace (snd (PublicClient.chainId this s)))
  = (rpc_calls (trace s) + 1)%nat /\
  (forall message,
     rpc_calls (trace (snd (PublicClient.sendRawMessage this message s)))
     = (rpc_calls (trace s) + 1)%nat) /\
  (forall address block,
     rpc_calls
       (trace (snd (PublicClientQueries.getCode this codec address block s)))
     = (rpc_calls (trace s) + 1)%nat) /\
  (forall address block,
     rpc_calls
       (trace (snd (PublicClientQueries.getBalance this codec address block
                      s)))
     = (rpc_calls (trace s) + 1)%nat) /\
  (forall callArgs block,
     rpc_calls
       (trace (snd (PublicClientQueries.call this codec callArgs block s)))
     = (rpc_calls (trace s) + 1)%nat).
Proof.
  assert (Hone : forall (A : Type) (args : RequestArgs)
                   (k : Result Json * State World -> Result A * State World),
            (forall r s1, snd (k (r, s1)) = s1) ->
            rpc_calls (trace (snd (k (PublicClient.request this args s))))
            = (rpc_calls (trace s) + 1)%nat).
  { intros A args k Hk. destruct (request_counts args s) as [Hcount _].
    destruct (PublicClient.request this args s) as [r s1].
    rewrite Hk. exact Hcount. }
  split; [ | repeat split; intros].
  - intros shard Hvalid.
    unfold PublicClient.getBlockByHash, PublicClient.getBlockByNumber,
      PublicClientQueries.getBlockMessageCountByNumber,
      PublicClientQueries.getBlockMessageCountByHash,
      PublicClientQueries.getMessageReceiptByHash.
    repeat split; intros;
      unfold bind at 1; unfold lift at 1; rewrite Hvalid;
      unfold try_catch, throw, bind, ret;
      match goal with
      | |- context [PublicClient.request this ?a s] =>
          pattern (PublicClient.request this a s)
      end;
      match goal with
      | |- (fun p => rpc_calls (trace (snd (@?k p))) = _) _ =>
          apply (Hone _ _ k)
      end;
      intros [res | e] s1; reflexivity.
  - apply request_then_counts.
  - apply request_then_counts.
  - apply request_counts.
  - apply request_then_counts.
  - apply request_then_counts.
  - apply (request_then_counts _ (fun res => Ok res)).
Qed.

End Facts.

(** A client whose shard check refuses everything sends nothing. *)
Lemma invalid_shard_id_witness :
  let c := PublicClient.mkClient
             (PublicClient.mkDeps (Mock.transport Mock.nothing)
                (fun _ => Err InvalidShardId) Mock.hexToNumber
                (fun h => h) Mock.bytesToHex)
             None in
  PublicClient.getBlockByHash c "0x9f86" None (Some 70000) Mock.start
  = (Err InvalidShardId, Mock.start) /\
  PublicClientQueries.getMessageReceiptByHash c (inl "9f86") None Mock.start
  = (Err InvalidShardId, Mock.start).
Proof.
  intros c. split.
  - apply (invalid_shard_id_stops_before_request Mock.World c
             (Some 70000) InvalidShardId Mock.start eq_refl).
  - apply (invalid_shard_id_stops_before_request Mock.World c
             None InvalidShardId Mock.start eq_refl).
Defined.

(** A block query and a submission against the mock node: one request
    each. *)
Lemma one_request_witness :
  rpc_calls
    (trace (snd (PublicClient.getBlockByHash (Mock.client Mock.nothing)
                   "0x9f86" None None Mock.start))) = 1%nat /\
  rpc_calls
    (trace (snd (PublicClient.sendRawMessage
                   (Mock.client (Mock.always "eth_sendRawTransaction"))
                   (inr [x01; x02]) Mock.start))) = 1%nat.
Proof.
  pose (codec := PublicClientQueries.mkCodec
                   (fun _ => Ok []) (fun _ => Ok 0)
                   (fun z => toString10 z) (fun d => JStr (sd_gasLimit d))).
  split.
  - destruct (one_request_per_query Mock.World (Mock.client Mock.nothing)
                codec Mock.start) as [Hguarded _].
    destruct (Hguarded None eq_refl) as [Hblock _].
    exact (Hblock "0x9f86" None).
  - destruct (one_request_per_query Mock.World
                (Mock.client (Mock.always "eth_sendRawTransaction"))
                codec Mock.start) as (_ & _ & _ & Hsend & _).
    exact (Hsend (inr [x01; x02])).
Defined.

(** A gas limit of [0n] goes out as 5000000. *)
Lemma call_defaults_witness :
  let codec := PublicClientQueries.mkCodec
                 (fun _ => Ok []) (fun _ => Ok 0)
                 (fun z => toString10 z) (fun d => JStr (sd_gasLimit d)) in
  let a := mkCallArgs "0x01" "0x02" (inl "0x") None (Some 0) in
  sd_gasLimit (PublicClientQueries.sendData (Mock.client Mock.nothing) codec a)
  = "5000000" /\
  PublicClientQueries.call (Mock.client Mock.nothing) codec a "latest"
    Mock.start
  = PublicClientQueries.call (Mock.client Mock.nothing) codec
      (mkCallArgs "0x01" "0x02" (inl "0x") None None) "latest" Mock.start.
Proof.
  intros codec a. split; [reflexivity | ].
  apply (call_defaults Mock.World (Mock.client Mock.nothing) codec a).
  reflexivity.
Defined.

End PublicClientQueriesFacts.

(** ** Faucet: single withdrawals *)

Module WithdrawToFacts.
Section Facts.

Variable World : Type.
Variable this : Faucet.t World.
Variable address' : Hex.

(** The trace [withdrawTo] leaves, by outcome. *)
Lemma withdrawTo_cases (value seqno : option Z) (s s' : State World)
    (r : Result bytes) :
  Faucet.withdrawTo this address' value seqno s = (r, s') ->
  (exists e,
     r = Err e /\
     trace s' = trace s ++ Withdrawal.fetches seqno) \/
  (exists n chainId env req,
     Withdrawal.refined this seqno (world s) = (Ok n, Ok chainId) /\
     Withdrawal.built this address' (default value 1000000000000000000)
       n chainId env /\
     Withdrawal.submission this env req /\
     trace s' = trace s ++ Withdrawal.fetches seqno ++ [EvRequest req] /\
     forall h, r = Ok h -> Faucet.hash (Faucet.deps this) env = Ok h).
Proof.
  unfold Faucet.withdrawTo, Withdrawal.refined, Withdrawal.fetches,
    Withdrawal.built, Withdrawal.submission, Run.fetched.
  unfold promise_all2, PublicClient.getMessageCount, PublicClient.chainId,
    PublicClient.sendRawMessage, PublicClient.request, perform, bind, lift,
    ret.
  fold Run.count_request Run.chain_request.
  intros H.
  destruct seqno as [n | ];
    repeat (break_match H; simpl in * );
    inversion H; subst; simpl; rewrite <- ?app_assoc; simpl;
    first
      [ left; eexists; split; reflexivity
      | right; do 4 eexists;
        split; [reflexivity | ];
        split; [do 3 eexists; repeat split; eauto | ];
        split; [eexists; split; [eassumption | reflexivity] | ];
        split; [reflexivity | ];
        intros h Hh; congruence ].
Qed.

Lemma waits_app (l l' : list Event) :
  waits (l ++ l') = (waits l + waits l')%nat.
Proof. unfold waits. rewrite filter_app, length_app. reflexivity. Qed.

Lemma waited_app (l l' : list Event) :
  waited (l ++ l') = waited l + waited l'.
Proof.
  induction l as [ | ev l IH]; simpl; [reflexivity | ].
  destruct ev; rewrite IH; lia.
Qed.

Lemma rpc_calls_app (l l' : list Event) :
  rpc_calls (l ++ l') = (rpc_calls l + rpc_calls l')%nat.
Proof. unfold rpc_calls. rewrite filter_app, length_app. reflexivity. Qed.

Lemma fetches_quiet (seqno : option Z) :
  submissions (Withdrawal.fetches seqno) = 0%nat /\
  waits (Withdrawal.fetches seqno) = 0%nat /\
  waited (Withdrawal.fetches seqno) = 0.
Proof. destruct seqno; repeat split. Qed.

Lemma submission_is_one (env : ExternalMessageEnvelope) (req : RequestArgs) :
  Withdrawal.submission this env req ->
  submissions [EvRequest req] = 1%nat.
Proof. intros (encoded & _ & Hreq). subst req. reflexivity. Qed.

(** With a seqno given, [withdrawTo] never asks the node for the message
    count, a seqno of 0 included: its first request is for the chain id,
    and the only request that can follow is the submission of the envelope
    built from the given seqno and that chain id. *)
Theorem explicit_seqno_skips_count_request
    (value : option Z) (n : Z) (s : State World) :
  exists rest,
    trace (snd (Faucet.withdrawTo this address' value (Some n) s))
    = trace s ++ [EvRequest Run.chain_request] ++ rest /\
    (List.length rest <= 1)%nat /\
    ~ In (EvRequest Run.count_request)
         ([EvRequest Run.chain_request] ++ rest) /\
    forall ev, In ev rest ->
      exists chainId env req,
        fst (Run.fetched this Run.chain_request (world s)) = Ok chainId /\
        Withdrawal.built this address' (default value 1000000000000000000)
          n chainId env /\
        Withdrawal.submission this env req /\
        ev = EvRequest req.
Proof.
  destruct (Faucet.withdrawTo this address' value (Some n) s) as [r s'] eqn:Hw.
  destruct (withdrawTo_cases _ _ _ _ _ Hw)
    as [(e & _ & Ht) | (n' & chainId & env & req & Href & Hbuilt & Hsub & Ht & _)].
  - exists []. simpl in *. split; [exact Ht | ].
    split; [lia | ]. split; [ | intros ev []].
    intros [Habs | []]. discriminate Habs.
  - simpl in Href. inversion Href as [[Hn Hchain]]. subst n'.
    exists [EvRequest req]. simpl in *. split; [exact Ht | ].
    split; [lia | ]. split.
    + destruct Hsub as (encoded & _ & Hreq). subst req.
      intros [Habs | [Habs | []]]; discriminate Habs.
    + intros ev [Hev | []]. subst ev.
      exists chainId, env, req. repeat split; assumption.
Qed.

(** [withdrawTo] is a single shot.  Whatever happens it submits at most once,
    never calls [waitTillCompleted] and never waits on a timer.  When it
    returns, it has submitted exactly once, and what it returns is the hash
    of the very envelope whose encoding it submitted last. *)
Theorem withdrawTo_is_single_shot
    (value seqno : option Z) (s : State World) :
  let r := Faucet.withdrawTo this address' value seqno s in
  (submissions (trace (snd r)) <= submissions (trace s) + 1)%nat /\
  waits (trace (snd r)) = waits (trace s) /\
  waited (trace (snd r)) = waited (trace s) /\
  forall h,
    fst r = Ok h ->
    submissions (trace (snd r)) = (submissions (trace s) + 1)%nat /\
    exists n chainId env req,
      Withdrawal.refined this seqno (world s) = (Ok n, Ok chainId) /\
      Withdrawal.built this address' (default value 1000000000000000000)
        n chainId env /\
      Withdrawal.submission this env req /\
      Faucet.hash (Faucet.deps this) env = Ok h /\
      trace (snd r)
      = trace s ++ Withdrawal.fetches seqno ++ [EvRequest req].
Proof.
  cbv zeta.
  destruct (Faucet.withdrawTo this address' value seqno s) as [r s'] eqn:Hw.
  destruct (fetches_quiet seqno) as (Hs0 & Hw0 & Ht0).
  simpl fst; simpl snd.
  destruct (withdrawTo_cases _ _ _ _ _ Hw)
    as [(e & Hr & Ht) | (n & chainId & env & req & Href & Hbuilt & Hsub & Ht & Hhash)].
  - rewrite Ht, FaucetFacts.submissions_app, waits_app, waited_app,
      Hs0, Hw0, Ht0.
    split; [lia | ]. split; [lia | ]. split; [lia | ].
    intros h Hh. simpl in Hh. congruence.
  - rewrite Ht, !FaucetFacts.submissions_app, !waits_app, !waited_app,
      Hs0, Hw0, Ht0, (submission_is_one _ _ Hsub).
    split; [lia | ]. split; [unfold waits; simpl; lia | ].
    split; [simpl; lia | ].
    intros h Hh. simpl in Hh. split; [lia | ].
    exists n, chainId, env, req. repeat split; auto.
Qed.

(** The try block of [withdrawToWithRetry] submits what [withdrawTo] without
    a seqno submits: from the same state both make the same requests and
    end in the same state, the one with the hash as hex and the other with
    the hash in bytes. *)
Theorem attempt_submits_like_withdrawTo (value : Z) (s : State World) :
  Faucet.submit this address' value s
  = hexResult (Faucet.bytesToHex (Faucet.deps this))
      (Faucet.withdrawTo this address' (Some value) None s).
Proof.
  unfold Faucet.submit, Faucet.withdrawTo, hexResult, default.
  unfold bind, lift, ret.
  destruct (promise_all2 _ _ _ s) as [[[refinedSeqno chainId] | e] s1];
    [ | reflexivity].
  destruct (Faucet.encodeFunctionData _ _ _) as [calldata | e];
    [ | reflexivity].
  destruct (Faucet.hexToBytes _ Faucet.address) as [to | e]; [ | reflexivity].
  destruct (Faucet.hexToBytes _ calldata) as [data | e]; [ | reflexivity].
  destruct (Faucet.encode _ _) as [encoded | e]; [ | reflexivity].
  destruct (PublicClient.sendRawMessage _ _ s1) as [[j | e] s2];
    [ | reflexivity].
  destruct (Faucet.hash _ _) as [h | e]; reflexivity.
Qed.

End Facts.
End WithdrawToFacts.

(** ** Faucet: what a run of the retry loop amounts to *)

Module RetryFacts.
Section Facts.

Variable World : Type.
Variable this : Faucet.t World.
Variable address' : Hex.
Variable value : Z.

Local Abbreviation submit := (Faucet.submit this address' value).
Local Abbreviation receiptsOf := (Faucet.receiptsOf this).
Local Abbreviation attempt := (Faucet.attempt this address' value).
Local Abbreviation iteration := (Faucet.iteration this address' value).
Local Abbreviation while_loop := (Faucet.while_loop this address' value).
Local Abbreviation unsuccessful := (Run.unsuccessful this address' value).
Local Abbreviation observes := (Run.observes this address' value).

Lemma attempt_ok_inv (s s' : State World) (o : option Hex) :
  attempt s = (Ok o, s') ->
  exists hash receipts,
    observes s hash receipts s' /\ o = Faucet.classify hash receipts.
Proof.
  intros Ha.
  destruct (FaucetFacts.attempt_cases _ _ _ _ _ _ _ Ha)
    as [(e & _ & Habs) | (hash & s1 & rr & Hs & Hr & Ho)];
    [discriminate | ].
  destruct rr as [receipts | e]; [ | discriminate].
  exists hash, receipts. split.
  - exists s1. split; assumption.
  - congruence.
Qed.

Lemma classify_some_inv (hash hash' : Hex) (receipts : list IReceipt) :
  Faucet.classify hash receipts = Some hash' -> hash' = hash.
Proof.
  unfold Faucet.classify.
  destruct (List.length receipts =? 0)%nat; [discriminate | ].
  destruct (existsb _ receipts); [discriminate | congruence].
Qed.

(** Every way the loop can end, with the attempts that led there. *)
Lemma loop_outcome (retry : Z) (n : nat) :
  forall (currentRetry : Z) (s s' : State World) (r : Result Hex),
    Z.to_nat (retry - currentRetry) = n ->
    while_loop retry currentRetry s = (r, s') ->
    match r with
    | Ok hash =>
        exists k s_k receipts,
          (k < n)%nat /\
          iterated unsuccessful k s s_k /\
          observes s_k hash receipts s' /\
          Run.confirmed receipts
    | Err e =>
        (e = Faucet.failure /\ iterated unsuccessful n s s') \/
        (exists s_k s1,
           (0 < n)%nat /\
           iterated unsuccessful (n - 1) s s_k /\
           attempt s_k = (Err e, s1) /\
           s' = Run.after_backoff s1)
    end.
Proof.
  induction n as [ | n IH]; intros currentRetry s s' r Hn.
  - rewrite FaucetFacts.loop_exit by lia.
    intros Hres; inversion Hres; subst. left. split; [reflexivity | constructor].
  - rewrite FaucetFacts.while_loop_unfold, FaucetFacts.iteration_unfold.
    destruct (Z.ltb_spec currentRetry retry); [ | lia].
    destruct (attempt s) as [[[hash | ] | e0] s1] eqn:Ha.
    + intros Hres; inversion Hres; subst.
      destruct (attempt_ok_inv _ _ _ Ha) as (h & receipts & Hobs & Hcl).
      symmetry in Hcl. pose proof (classify_some_inv _ _ _ Hcl). subst h.
      exists 0%nat, s, receipts.
      split; [lia | ]. split; [constructor | ]. split; [exact Hobs | ].
      apply (FaucetFacts.classify_confirmed hash). exact Hcl.
    + destruct (attempt_ok_inv _ _ _ Ha) as (h & receipts & Hobs & Hcl).
      assert (Hstep : unsuccessful s s1).
      { apply Run.unsuccessful_receipts. exists h, receipts.
        split; [exact Hobs | ].
        apply (FaucetFacts.classify_unconfirmed h). symmetry. exact Hcl. }
      intros Hres.
      specialize (IH (currentRetry + 1) s1 s' r ltac:(lia) Hres).
      destruct r as [hash | e].
      * destruct IH as (k & s_k & rs & Hk & Hrun & Hobs' & Hconf).
        exists (S k), s_k, rs. split; [lia | ].
        split; [apply iterated_S with (s1 := s1); assumption | ].
        split; assumption.
      * destruct IH as [[He Hrun] | (s_k & s2 & Hpos & Hrun & Ha' & Hs')].
        -- left. split; [exact He | ].
           apply iterated_S with (s1 := s1); assumption.
        -- right. exists s_k, s2. split; [lia | ].
           split; [ | split; assumption].
           replace (S n - 1)%nat with (S (n - 1)) by lia.
           apply iterated_S with (s1 := s1); assumption.
    + assert (Hstep : unsuccessful s (Run.after_backoff s1))
        by (apply Run.unsuccessful_error with (e := e0); exact Ha).
      destruct (Z.geb_spec (currentRetry + 1) retry).
      * intros Hres; inversion Hres; subst.
        right. exists s, s1. split; [lia | ].
        replace (S n - 1)%nat with 0%nat by lia.
        split; [constructor | ]. split; [exact Ha | reflexivity].
      * intros Hres.
        specialize (IH (currentRetry + 1) (Run.after_backoff s1) s' r
                      ltac:(lia) Hres).
        destruct r as [hash | e].
        -- destruct IH as (k & s_k & rs & Hk & Hrun & Hobs' & Hconf).
           exists (S k), s_k, rs. split; [lia | ].
           split; [apply iterated_S with (s1 := Run.after_backoff s1);
                   assumption | ].
           split; assumption.
        -- destruct IH as [[He Hrun] | (s_k & s2 & Hpos & Hrun & Ha' & Hs')].
           ++ left. split; [exact He | ].
              apply iterated_S with (s1 := Run.after_backoff s1); assumption.
           ++ right. exists s_k, s2. split; [lia | ].
              split; [ | split; assumption].
              replace (S n - 1)%nat with (S (n - 1)) by lia.
              apply iterated_S with (s1 := Run.after_backoff s1); assumption.
Qed.

(** *** Timers and waits *)

Lemma polls_silent (polls : list Event) :
  Forall (fun ev => receipt_poll ev = true) polls ->
  waited polls = 0 /\ waits polls = 0%nat.
Proof.
  unfold waits.
  induction 1 as [ | ev polls Hev _ [IHw IHn]]; [split; reflexivity | ].
  destruct ev as [req | shard hash | ms]; try discriminate Hev.
  simpl. split; assumption.
Qed.

Lemma submit_quiet (s s1 : State World) (r : Result Hex) :
  submit s = (r, s1) ->
  waited (trace s1) = waited (trace s) /\ waits (trace s1) = waits (trace s).
Proof.
  intros Hs.
  destruct (FaucetFacts.submit_cases _ _ _ _ _ _ _ Hs)
    as [(e & _ & Ht) | (sq & ch & p & _ & _ & _ & Ht)];
    rewrite Ht, WithdrawToFacts.waited_app, WithdrawToFacts.waits_app;
    unfold waits; simpl; lia.
Qed.

(** An attempt waits out the 10000 ms timer only to end in [continue]. *)
Lemma attempt_waits (s s' : State World) (r : Result (option Hex)) :
  attempt s = (r, s') ->
  (waited (trace s') = waited (trace s) \/
   (waited (trace s') = waited (trace s) + 10000 /\ r = Ok None)) /\
  (waits (trace s') <= waits (trace s) + 1)%nat.
Proof.
  intros Ha.
  destruct (FaucetFacts.attempt_cases _ _ _ _ _ _ _ Ha)
    as [(e & Hs & _) | (hash & s1 & rr & Hs & Hr & Hres)].
  - destruct (submit_quiet _ _ _ Hs) as [Hw Hn]. split; [left | ]; lia.
  - destruct (submit_quiet _ _ _ Hs) as [Hw Hn].
    destruct (FaucetFacts.receiptsOf_trace World this _ _ _ _ Hr)
      as [[_ Hsame] | (shard & polls & Hpolls & [Ht | [Hrr Ht]])].
    + subst s'. split; [left | ]; lia.
    + destruct (polls_silent _ Hpolls) as [Hpw Hpn].
      rewrite Ht, !WithdrawToFacts.waited_app, !WithdrawToFacts.waits_app,
        Hpw, Hpn.
      unfold waits at 2. simpl. split; [left | ]; lia.
    + destruct (polls_silent _ Hpolls) as [Hpw Hpn].
      rewrite Ht, !WithdrawToFacts.waited_app, !WithdrawToFacts.waits_app,
        Hpw, Hpn.
      unfold waits at 2. simpl. subst rr.
      split; [right; split; [lia | exact Hres] | lia].
Qed.

Lemma iteration_waits (retry currentRetry : Z) (s s' : State World)
    (r : Result (option Hex)) :
  iteration retry currentRetry s = (r, s') ->
  waited (trace s) <= waited (trace s') <= waited (trace s) + 10000 /\
  (waits (trace s') <= waits (trace s) + 1)%nat.
Proof.
  rewrite FaucetFacts.iteration_unfold.
  destruct (attempt s) as [[o | e] s1] eqn:Ha;
    destruct (attempt_waits _ _ _ Ha) as [Hw Hn].
  - intros H; inversion H; subst.
    destruct Hw as [Hw | [Hw _]]; split; lia.
  - destruct Hw as [Hw | [_ Habs]]; [ | discriminate].
    assert (Hback :
      waited (trace (Run.after_backoff s1)) = waited (trace s) + 1000 /\
      waits (trace (Run.after_backoff s1)) = waits (trace s1)).
    { simpl. rewrite WithdrawToFacts.waited_app, WithdrawToFacts.waits_app.
      unfold waits at 2. simpl. lia. }
    destruct (currentRetry >=? retry); intros H; inversion H; subst;
      split; lia.
Qed.

Lemma loop_waits (retry : Z) (n : nat) :
  forall (currentRetry : Z) (s : State World),
    Z.to_nat (retry - currentRetry) = n ->
    waited (trace s)
    <= waited (trace (snd (while_loop retry currentRetry s)))
    <= waited (trace s) + 10000 * Z.of_nat n /\
    (waits (trace (snd (while_loop retry currentRetry s)))
     <= waits (trace s) + n)%nat.
Proof.
  induction n as [ | n IH]; intros currentRetry s Hn.
  - rewrite FaucetFacts.loop_exit by lia. simpl. lia.
  - rewrite FaucetFacts.while_loop_unfold.
    destruct (Z.ltb_spec currentRetry retry); [ | lia].
    destruct (iteration retry (currentRetry + 1) s) as [r s1] eqn:Hit.
    destruct (iteration_waits _ _ _ _ _ Hit) as [Hw Hc].
    destruct r as [[hash | ] | e]; simpl; try lia.
    destruct (IH (currentRetry + 1) s1) as [Hw' Hc']; [lia | ]. lia.
Qed.

(** *** Requests *)

Lemma submissions_own (tr : list Event) :
  submissions tr
  = List.length
      (filter (fun r => String.eqb (method r) "eth_sendRawTransaction")
         (own_requests tr)).
Proof.
  unfold submissions.
  induction tr as [ | ev tr IH]; [reflexivity | ].
  destruct ev as [req | shard hash | ms]; simpl; try exact IH.
  destruct (String.eqb (method req) "eth_getInMessageReceipt") eqn:Hpoll.
  - apply String.eqb_eq in Hpoll. rewrite Hpoll. simpl. exact IH.
  - simpl.
    destruct (String.eqb (method req) "eth_sendRawTransaction");
      simpl; rewrite IH; reflexivity.
Qed.

Lemma fresh_attempt_counts (s s' : State World) :
  Run.fresh_attempt this address' value s s' ->
  (submissions (trace s') <= submissions (trace s) + 1)%nat /\
  (List.length (own_requests (trace s'))
   <= List.length (own_requests (trace s)) + 3)%nat.
Proof.
  intros (rest & Ht & Hreq).
  rewrite !submissions_own, Ht, !FaucetFacts.own_requests_app.
  change (own_requests [EvRequest Run.count_request;
                        EvRequest Run.chain_request])
    with [Run.count_request; Run.chain_request].
  destruct Hreq as [Hown | (sq & ch & p & _ & _ & _ & Hown)];
    rewrite Hown, !filter_app, !length_app; simpl; lia.
Qed.

Lemma fresh_run_counts (k : nat) :
  forall (s s' : State World),
    iterated (Run.fresh_attempt this address' value) k s s' ->
    (submissions (trace s') <= submissions (trace s) + k)%nat /\
    (List.length (own_requests (trace s'))
     <= List.length (own_requests (trace s)) + 3 * k)%nat.
Proof.
  induction k as [ | k IH]; intros s s' Hrun; inversion Hrun; subst.
  - lia.
  - destruct (fresh_attempt_counts _ _ H0) as [Hs Hr].
    destruct (IH _ _ H1) as [Hs' Hr']. lia.
Qed.

(** *** Requests, the polls of [waitTillCompleted] included *)

Lemma poll_calls (p : Poll) :
  forall (n : nat) (s : State World),
    asks_at_most p n ->
    (rpc_calls (trace (snd (Faucet.poll (Faucet.client this) p s)))
     <= rpc_calls (trace s) + n)%nat.
Proof.
  induction p as [r0 | | hash shardId k IH]; intros n s Hn; simpl;
    try lia.
  destruct n as [ | n]; [destruct Hn | ].
  unfold PublicClientQueries.getMessageReceiptByHash, PublicClient.request,
    perform, bind, lift, ret.
  destruct (PublicClient.assertIsValidShardId _ _) as [[] | e].
  - destruct (PublicClient.transport _ _ (world s)) as [[j | e] w];
      match goal with
      | |- context [Faucet.poll _ (k ?r) ?s1] =>
          specialize (IH r n s1 (Hn r))
      end;
      cbn [trace] in IH; rewrite WithdrawToFacts.rpc_calls_app in IH;
      unfold rpc_calls at 3 in IH; simpl in IH; lia.
  - specialize (IH (Err e) n s (Hn (Err e))). lia.
Qed.

Section Bounded.

Variable n : nat.
Hypothesis polls_bounded :
  forall shard hash,
    asks_at_most (Faucet.waitTillCompleted (Faucet.deps this) shard hash) n.

Lemma receiptsOf_calls (hash : Hex) (s : State World) :
  (rpc_calls (trace (snd (receiptsOf hash s))) <= rpc_calls (trace s) + n)%nat.
Proof.
  unfold Faucet.receiptsOf, bind, lift, race_timeout.
  destruct (Faucet.getShardIdFromAddress _ _) as [shard | e]; [ | simpl; lia].
  pose proof (poll_calls _ n s (polls_bounded shard hash)) as Hp.
  destruct (Faucet.poll _ _ s) as [[r' | ] s1]; simpl in *;
    rewrite WithdrawToFacts.rpc_calls_app;
    unfold rpc_calls at 2; simpl; lia.
Qed.

Lemma attempt_calls (s : State World) :
  (rpc_calls (trace (snd (attempt s))) <= rpc_calls (trace s) + (3 + n))%nat.
Proof.
  destruct (attempt s) as [r s'] eqn:Ha. simpl.
  destruct (FaucetFacts.attempt_cases _ _ _ _ _ _ _ Ha)
    as [(e & Hs & _) | (hash & s1 & rr & Hs & Hr & _)].
  - destruct (FaucetFacts.submit_cases _ _ _ _ _ _ _ Hs)
      as [(e' & _ & Ht) | (sq & ch & p & _ & _ & _ & Ht)];
      rewrite Ht, WithdrawToFacts.rpc_calls_app;
      unfold rpc_calls at 2; simpl; lia.
  - pose proof (receiptsOf_calls hash s1) as Hcalls.
    rewrite Hr in Hcalls. simpl in Hcalls.
    destruct (FaucetFacts.submit_cases _ _ _ _ _ _ _ Hs)
      as [(e' & Habs & _) | (sq & ch & p & _ & _ & _ & Ht)];
      [discriminate | ].
    rewrite Ht, WithdrawToFacts.rpc_calls_app in Hcalls.
    unfold rpc_calls at 3 in Hcalls. simpl in Hcalls. lia.
Qed.

Lemma loop_calls (retry : Z) (k : nat) :
  forall (currentRetry : Z) (s : State World),
    Z.to_nat (retry - currentRetry) = k ->
    (rpc_calls (trace (snd (while_loop retry currentRetry s)))
     <= rpc_calls (trace s) + (3 + n) * k)%nat.
Proof.
  induction k as [ | k IH]; intros currentRetry s Hk.
  - rewrite FaucetFacts.loop_exit by lia. simpl. lia.
  - rewrite FaucetFacts.while_loop_unfold, FaucetFacts.iteration_unfold.
    destruct (Z.ltb_spec currentRetry retry); [ | lia].
    pose proof (attempt_calls s) as Ha.
    destruct (attempt s) as [[[hash | ] | e] s1]; simpl in Ha; simpl.
    + lia.
    + specialize (IH (currentRetry + 1) s1 ltac:(lia)). lia.
    + assert (Hback : rpc_calls (trace (Run.after_backoff s1))
                      = rpc_calls (trace s1)).
      { simpl. rewrite WithdrawToFacts.rpc_calls_app.
        unfold rpc_calls at 2. simpl. lia. }
      destruct (currentRetry + 1 >=? retry).
      * simpl snd. lia.
      * specialize (IH (currentRetry + 1) (Run.after_backoff s1)
                      ltac:(lia)).
        lia.
Qed.

End Bounded.

End Facts.

(** *** What the loop does not look at *)

Section Congruence.

Variable World : Type.

(** Two loops whose attempts do the same do the same. *)
Lemma loop_congruence (this this' : Faucet.t World) (a b : Hex)
    (value retry : Z) :
  (forall s, Faucet.attempt this a value s = Faucet.attempt this' b value s) ->
  forall (n : nat) (currentRetry : Z) (s : State World),
    Z.to_nat (retry - currentRetry) = n ->
    Faucet.while_loop this a value retry currentRetry s
    = Faucet.while_loop this' b value retry currentRetry s.
Proof.
  intros Hattempt.
  induction n as [ | n IH]; intros currentRetry s Hn.
  - rewrite !FaucetFacts.loop_exit by lia. reflexivity.
  - rewrite !FaucetFacts.while_loop_unfold, !FaucetFacts.iteration_unfold.
    rewrite Hattempt.
    destruct (currentRetry <? retry); [ | reflexivity].
    destruct (Faucet.attempt this' b value s) as [[[hash | ] | e] s1];
      try reflexivity.
    + apply IH. lia.
    + destruct (currentRetry + 1 >=? retry); [reflexivity | ].
      apply IH. lia.
Qed.

Lemma lower_ascii_idempotent (c : ascii) :
  lower_ascii (lower_ascii c) = lower_ascii c.
Proof. destruct c as [[] [] [] [] [] [] [] []]; reflexivity. Qed.

Lemma toLowerCase_idempotent (a : string) :
  toLowerCase (toLowerCase a) = toLowerCase a.
Proof.
  induction a as [ | c a IH]; simpl; [reflexivity | ].
  rewrite lower_ascii_idempotent, IH. reflexivity.
Qed.

End Congruence.

Section Runs.

Variable World : Type.
Variable this : Faucet.t World.
Variable address' : Hex.
Variable value : option Z.
Variable retry : option Z.

Local Abbreviation value' := (default value 1000000000000000000).
Local Abbreviation retry' := (default retry 5).
Local Abbreviation withdraw :=
  (Faucet.withdrawToWithRetry this address' value retry).

(** [withdrawToWithRetry] returns a hash only when one of its attempts,
    within the budget and after unsuccessful ones only, submitted the
    message with that hash and collected for it a chain that is non-empty
    with every receipt successful.  The receipts came from
    [waitTillCompleted], not from the deadline: the call on that hash is
    the last thing in the trace. *)
Theorem returned_hash_was_confirmed (s s' : State World) (hash : Hex) :
  withdraw s = (Ok hash, s') ->
  exists k s_k receipts,
    Z.of_nat k < retry' /\
    iterated (Run.unsuccessful this address' value') k s s_k /\
    Run.observes this address' value' s_k hash receipts s' /\
    Run.confirmed receipts /\
    exists shard before,
      trace s' = before ++ [EvWaitTillCompleted shard hash].
Proof.
  intros Hw.
  pose proof (loop_outcome World this address' value' retry'
                (Z.to_nat (retry' - 0)) 0 s s' (Ok hash) eq_refl Hw)
    as (k & s_k & receipts & Hk & Hrun & Hobs & Hconf).
  exists k, s_k, receipts.
  split; [lia | ]. split; [exact Hrun | ]. split; [exact Hobs | ].
  split; [exact Hconf | ].
  destruct Hobs as (s1 & _ & Hr).
  destruct (FaucetFacts.receiptsOf_trace World this _ _ _ _ Hr)
    as [[[e Habs] _] | (shard & polls & _ & [Ht | [Habs _]])].
  - discriminate Habs.
  - exists shard, (trace s1 ++ polls). rewrite Ht. apply app_assoc.
  - destruct Hconf as [Hne _]. inversion Habs. congruence.
Qed.

(** A failed call has used every attempt allowed.  Either all [retry]
    attempts were unsuccessful and the error is the final
    [Error("Failed to withdraw to the given address")], or the error was
    thrown by attempt number [retry] after [retry - 1] unsuccessful ones:
    what earlier attempts threw is never the error of the call. *)
Theorem failed_run_used_every_attempt
    (s s' : State World) (e : error) :
  withdraw s = (Err e, s') ->
  (e = Faucet.failure /\
   iterated (Run.unsuccessful this address' value') (Z.to_nat retry') s s') \/
  (0 < retry' /\
   exists s_k s1,
     iterated (Run.unsuccessful this address' value')
       (Z.to_nat retry' - 1) s s_k /\
     Faucet.attempt this address' value' s_k = (Err e, s1) /\
     s' = Run.after_backoff s1).
Proof.
  intros Hw.
  pose proof (loop_outcome World this address' value' retry'
                (Z.to_nat (retry' - 0)) 0 s s' (Err e) eq_refl Hw)
    as [[He Hrun] | (s_k & s1 & Hpos & Hrun & Ha & Hs')].
  - left. split; [exact He | ].
    replace (Z.to_nat retry') with (Z.to_nat (retry' - 0)) by lia.
    exact Hrun.
  - right. split; [lia | ]. exists s_k, s1.
    replace (Z.to_nat retry') with (Z.to_nat (retry' - 0)) by lia.
    split; [exact Hrun | split; assumption].
Qed.

(** Whatever the node does, a call submits at most [retry] times, calls
    [waitTillCompleted] at most [retry] times, and makes at most three
    requests of its own per attempt allowed: the two fetches and the
    submission.  All other requests are the receipt polls that
    [waitTillCompleted] makes through the client: when each of its calls
    asks at most [n] times, the call makes at most [3 + n] requests per
    attempt allowed. *)
Theorem run_requests_are_bounded (s : State World) :
  (submissions (trace (snd (withdraw s)))
   <= submissions (trace s) + Z.to_nat retry')%nat /\
  (waits (trace (snd (withdraw s)))
   <= waits (trace s) + Z.to_nat retry')%nat /\
  (List.length (own_requests (trace (snd (withdraw s))))
   <= List.length (own_requests (trace s)) + 3 * Z.to_nat retry')%nat /\
  (forall n,
     (forall shard hash,
        asks_at_most
          (Faucet.waitTillCompleted (Faucet.deps this) shard hash) n) ->
     (rpc_calls (trace (snd (withdraw s)))
      <= rpc_calls (trace s) + (3 + n) * Z.to_nat retry')%nat).
Proof.
  rewrite (FaucetFacts.withdraw_is_loop World this address' value retry s).
  destruct (FaucetFacts.loop_fresh World this address' value' retry'
              (Z.to_nat (retry' - 0)) 0 s eq_refl) as (k & Hk & Hrun).
  destruct (fresh_run_counts World this address' value' k _ _ Hrun)
    as [Hs Hr].
  destruct (loop_waits World this address' value' retry'
              (Z.to_nat (retry' - 0)) 0 s eq_refl) as [_ Hwaits].
  replace (Z.to_nat (retry' - 0)) with (Z.to_nat retry') in * by lia.
  split; [lia | ]. split; [lia | ]. split; [lia | ].
  intros n Hn.
  pose proof (loop_calls World this address' value' n Hn retry'
                (Z.to_nat (retry' - 0)) 0 s eq_refl) as Hcalls.
  replace (Z.to_nat (retry' - 0)) with (Z.to_nat retry') in Hcalls by lia.
  exact Hcalls.
Qed.

(** The timers a call waits out, the 10000 ms deadline of an attempt or
    the 1000 ms backoff after a thrown one, add up to at most 10000 ms per
    attempt allowed. *)
Theorem run_timers_are_bounded (s : State World) :
  waited (trace s)
  <= waited (trace (snd (withdraw s)))
  <= waited (trace s) + 10000 * Z.max 0 retry'.
Proof.
  rewrite (FaucetFacts.withdraw_is_loop World this address' value retry s).
  destruct (loop_waits World this address' value' retry'
              (Z.to_nat (retry' - 0)) 0 s eq_refl) as [Hw _].
  lia.
Qed.

End Runs.

(** The Faucet looks at the target address only through [toLowerCase],
    which changes nothing when applied again: two addresses that differ in
    the case of their letters only, such as a checksummed address and its
    lower-case form, give the same calls of [withdrawTo] and of
    [withdrawToWithRetry]. *)
Theorem target_address_is_case_insensitive
    (World : Type) (this : Faucet.t World) (a b : Hex) :
  toLowerCase a = toLowerCase b ->
  (forall value seqno s,
     Faucet.withdrawTo this a value seqno s
     = Faucet.withdrawTo this b value seqno s) /\
  (forall value retry s,
     Faucet.withdrawToWithRetry this a value retry s
     = Faucet.withdrawToWithRetry this b value retry s) /\
  toLowerCase (toLowerCase a) = toLowerCase a.
Proof.
  intros Hlower. split; [ | split].
  - intros value seqno s. unfold Faucet.withdrawTo.
    rewrite Hlower. reflexivity.
  - intros value retry s. unfold Faucet.withdrawToWithRetry.
    apply loop_congruence with (n := Z.to_nat (default retry 5 - 0));
      [ | reflexivity].
    intros s0. unfold Faucet.attempt, Faucet.submit.
    rewrite Hlower. reflexivity.
  - apply toLowerCase_idempotent.
Qed.

(** [withdrawTo] and the submitting part of an attempt of
    [withdrawToWithRetry] never consult the shard id of the client, nor
    [assertIsValidShardId], [addHexPrefix] or the client's [bytesToHex]:
    two faucets with the same helpers whose clients share the transport
    and [hexToNumber] do the same there.  (The receipt polls of
    [waitTillCompleted] do go through the client's shard check.) *)
Theorem faucet_ignores_client_shard
    (World : Type) (this this' : Faucet.t World) :
  Faucet.deps this = Faucet.deps this' ->
  PublicClient.transport (PublicClient.deps (Faucet.client this))
  = PublicClient.transport (PublicClient.deps (Faucet.client this')) ->
  PublicClient.hexToNumber (PublicClient.deps (Faucet.client this))
  = PublicClient.hexToNumber (PublicClient.deps (Faucet.client this')) ->
  (forall address' value seqno s,
     Faucet.withdrawTo this address' value seqno s
     = Faucet.withdrawTo this' address' value seqno s) /\
  (forall address' value s,
     Faucet.submit this address' value s
     = Faucet.submit this' address' value s).
Proof.
  intros Hdeps Htransport Hnumber. split.
  - intros address' value seqno s. unfold Faucet.withdrawTo.
    unfold PublicClient.getMessageCount, PublicClient.chainId,
      PublicClient.sendRawMessage, PublicClient.request.
    rewrite Hdeps, Htransport, Hnumber. reflexivity.
  - intros address' value s. unfold Faucet.submit.
    unfold PublicClient.getMessageCount, PublicClient.chainId,
      PublicClient.sendRawMessage, PublicClient.request.
    rewrite Hdeps, Htransport, Hnumber. reflexivity.
Qed.

End RetryFacts.

(** ** MessageEnvelope: what the Faucet needs of [encode] *)

Module MessageEnvelopeFacts.

Lemma is_empty_false (b : bytes) :
  b <> [] -> MessageEnvelope.is_empty b = false.
Proof. destruct b; [congruence | reflexivity]. Qed.

Lemma spec_encode_rejects (serialize : ExternalMessageEnvelope -> bytes) :
  MessageEnvelope.rejects_unsigned (MessageEnvelope.encode serialize).
Proof.
  intros e Hpayload Hauth. unfold MessageEnvelope.encode.
  rewrite Hauth. simpl. rewrite andb_true_r.
  destruct Hpayload as [Hdeploy | Hdata].
  - rewrite Hdeploy. reflexivity.
  - rewrite (is_empty_false _ Hdata), orb_true_r. reflexivity.
Qed.

Lemma submissions_snoc_other (tr : list Event) (ev : Event) :
  is_submission ev = false ->
  submissions (tr ++ [ev]) = submissions tr.
Proof.
  intros Hev. rewrite FaucetFacts.submissions_app.
  unfold submissions at 2. simpl. rewrite Hev. simpl. lia.
Qed.

Section Faucet.

Variable World : Type.
Variable this : Faucet.t World.
Variable address' : Hex.

Local Abbreviation sent encoded :=
  (EvRequest
     (Run.send_request (Faucet.bytesToHex (Faucet.deps this) encoded))).

(** *** A hash comes back only after [encode] accepted the envelope *)

Lemma withdrawTo_accepted (value seqno : option Z) (s s' : State World)
    (h : bytes) :
  Faucet.withdrawTo this address' value seqno s = (Ok h, s') ->
  exists sq ch e encoded,
    Run.assembled this address' (default value 1000000000000000000)
      sq ch e /\
    Faucet.encode (Faucet.deps this) e = Ok encoded /\
    In (sent encoded) (trace s') /\
    Faucet.hash (Faucet.deps this) e = Ok h.
Proof.
  intros Hw.
  destruct (WithdrawToFacts.withdrawTo_cases World this address' _ _ _ _ _ Hw)
    as [(e & Habs & _)
       | (n & ch & env & req & _ & Hbuilt & (encoded & Henc & Hreq) & Ht
          & Hhash)];
    [discriminate Habs | ].
  exists n, ch, env, encoded.
  split; [exact Hbuilt | ]. split; [exact Henc | ].
  split; [ | exact (Hhash h eq_refl)].
  rewrite Ht, Hreq. apply in_or_app. right. apply in_or_app. right.
  left. reflexivity.
Qed.

Lemma submit_accepted (value : Z) (s s1 : State World) (hash : Hex) :
  Faucet.submit this address' value s = (Ok hash, s1) ->
  exists sq ch e encoded hb,
    Run.assembled this address' value sq ch e /\
    Faucet.encode (Faucet.deps this) e = Ok encoded /\
    In (sent encoded) (trace s1) /\
    Faucet.hash (Faucet.deps this) e = Ok hb /\
    hash = Faucet.bytesToHex (Faucet.deps this) hb.
Proof.
  unfold Faucet.submit, Run.assembled, Faucet.envelope.
  unfold promise_all2, PublicClient.getMessageCount, PublicClient.chainId,
    PublicClient.sendRawMessage, PublicClient.request, perform, bind, lift,
    ret.
  intros H.
  repeat (break_match H; simpl in * );
    inversion H; subst; simpl;
    do 5 eexists;
    (split; [do 3 eexists; repeat split; eassumption | ]);
    (split; [eassumption | ]);
    (split; [apply in_or_app; right; left; reflexivity | ]);
    (split; [eassumption | reflexivity]).
Qed.

Lemma loop_accepted (value retry : Z) (s s' : State World) (hash : Hex) :
  Faucet.while_loop this address' value retry 0 s = (Ok hash, s') ->
  exists sq ch e encoded hb,
    Run.assembled this address' value sq ch e /\
    Faucet.encode (Faucet.deps this) e = Ok encoded /\
    In (sent encoded) (trace s') /\
    Faucet.hash (Faucet.deps this) e = Ok hb /\
    hash = Faucet.bytesToHex (Faucet.deps this) hb.
Proof.
  intros Hw.
  pose proof (RetryFacts.loop_outcome World this address' value retry
                (Z.to_nat (retry - 0)) 0 s s' (Ok hash) eq_refl Hw)
    as (k & s_k & receipts & _ & _ & (s1 & Hs & Hr) & _).
  destruct (submit_accepted _ _ _ _ Hs)
    as (sq & ch & e & encoded & hb & Hasm & Henc & Hin & Hhash & Hhex).
  destruct (FaucetFacts.receiptsOf_quiet World this _ _ _ _ Hr)
    as (rest & Ht & _).
  exists sq, ch, e, encoded, hb.
  split; [exact Hasm | ]. split; [exact Henc | ].
  split; [ | split; assumption].
  rewrite Ht. apply in_or_app. left. exact Hin.
Qed.

(** The envelope of a withdrawal is unsigned and carries data. *)
Lemma assembled_unsigned (value sq ch : Z) (e : ExternalMessageEnvelope) :
  Run.assembled this address' value sq ch e ->
  isDeploy e = false /\ authData e = [] /\
  (Run.calldata_nonempty this -> data e <> []).
Proof.
  intros (calldata & to & data & Hc & _ & Hd & He). subst e. simpl.
  split; [reflexivity | ]. split; [reflexivity | ].
  intros Hne. exact (Hne _ _ _ _ Hc Hd).
Qed.

(** *** An [encode] that insists on a signature *)

Hypothesis encode_rejects :
  MessageEnvelope.rejects_unsigned (Faucet.encode (Faucet.deps this)).
Hypothesis calldata_nonempty : Run.calldata_nonempty this.

Lemma faucet_envelope_rejected (name : string) (args : list AbiArg)
    (calldata : Hex) (to data : bytes) (chainId seqno : Z) :
  Faucet.encodeFunctionData (Faucet.deps this) name args = Ok calldata ->
  Faucet.hexToBytes (Faucet.deps this) calldata = Ok data ->
  Faucet.encode (Faucet.deps this) (Faucet.envelope to chainId seqno data)
  = Err MissingSignature.
Proof.
  intros Hcall Hdata.
  apply encode_rejects; [right | reflexivity].
  exact (calldata_nonempty _ _ _ _ Hcall Hdata).
Qed.

(** Every outcome of [withdrawTo] is an error, [MissingSignature] or an
    earlier one, and nothing has been submitted. *)
Lemma withdrawTo_never_submits (value seqno : option Z)
    (s s' : State World) (r : Result bytes) :
  Faucet.withdrawTo this address' value seqno s = (r, s') ->
  (exists e, r = Err e) /\
  submissions (trace s') = submissions (trace s).
Proof.
  pose proof faucet_envelope_rejected as Hrej.
  unfold Faucet.withdrawTo.
  unfold promise_all2, PublicClient.getMessageCount, PublicClient.chainId,
    PublicClient.sendRawMessage, PublicClient.request, perform, bind, lift,
    ret.
  intros H.
  repeat (break_match H; simpl in * );
    try match goal with
        | Hc : Faucet.encodeFunctionData _ _ _ = Ok _,
          Hd : Faucet.hexToBytes _ _ = Ok ?d,
          He : Faucet.encode _ (Faucet.envelope _ _ _ ?d) = Ok _ |- _ =>
            rewrite (Hrej _ _ _ _ _ _ _ Hc Hd) in He; discriminate He
        end;
    inversion H; subst; simpl;
    (split; [eexists; reflexivity | ]);
    rewrite ?submissions_snoc_other by reflexivity; reflexivity.
Qed.

(** The same for the submitting part of an attempt of
    [withdrawToWithRetry]. *)
Lemma submit_never_submits (value : Z)
    (s s' : State World) (r : Result Hex) :
  Faucet.submit this address' value s = (r, s') ->
  (exists e, r = Err e) /\
  submissions (trace s') = submissions (trace s).
Proof.
  pose proof faucet_envelope_rejected as Hrej.
  unfold Faucet.submit.
  unfold promise_all2, PublicClient.getMessageCount, PublicClient.chainId,
    PublicClient.sendRawMessage, PublicClient.request, perform, bind, lift,
    ret.
  intros H.
  repeat (break_match H; simpl in * );
    try match goal with
        | Hc : Faucet.encodeFunctionData _ _ _ = Ok _,
          Hd : Faucet.hexToBytes _ _ = Ok ?d,
          He : Faucet.encode _ (Faucet.envelope _ _ _ ?d) = Ok _ |- _ =>
            rewrite (Hrej _ _ _ _ _ _ _ Hc Hd) in He; discriminate He
        end;
    inversion H; subst; simpl;
    (split; [eexists; reflexivity | ]);
    rewrite ?submissions_snoc_other by reflexivity; reflexivity.
Qed.

Lemma loop_never_submits (value retry : Z) (n : nat) :
  forall (currentRetry : Z) (s : State World),
    Z.to_nat (retry - currentRetry) = n ->
    (exists e,
       fst (Faucet.while_loop this address' value retry currentRetry s)
       = Err e) /\
    submissions
      (trace (snd (Faucet.while_loop this address' value retry
                     currentRetry s)))
    = submissions (trace s).
Proof.
  induction n as [ | n IH]; intros currentRetry s Hn.
  - rewrite FaucetFacts.loop_exit by lia.
    split; [eexists; reflexivity | reflexivity].
  - rewrite FaucetFacts.while_loop_unfold, FaucetFacts.iteration_unfold.
    destruct (Z.ltb_spec currentRetry retry); [ | lia].
    destruct (Faucet.attempt this address' value s) as [r s1] eqn:Ha.
    assert (Hattempt : (exists e, r = Err e) /\
                       submissions (trace s1) = submissions (trace s)).
    { destruct (FaucetFacts.attempt_cases _ _ _ _ _ _ _ Ha)
        as [(e & Hs & Hr) | (hash & s0 & rr & Hs & _ & _)].
      - destruct (submit_never_submits _ _ _ _ Hs) as [_ Hcount].
        split; [exists e; exact Hr | exact Hcount].
      - destruct (submit_never_submits _ _ _ _ Hs) as [[e Habs] _].
        discriminate Habs. }
    destruct Hattempt as [[e Hr] Hcount]. subst r.
    assert (Hback : submissions (trace (Run.after_backoff s1))
                    = submissions (trace s)).
    { simpl. rewrite submissions_snoc_other by reflexivity. exact Hcount. }
    destruct (currentRetry + 1 >=? retry).
    + split; [exists e; reflexivity | exact Hback].
    + destruct (IH (currentRetry + 1) (Run.after_backoff s1)) as [He Hc];
        [lia | ].
      split; [exact He | rewrite Hc; exact Hback].
Qed.

End Faucet.




End MessageEnvelopeFacts.

(** *** More runs against the mock node *)

Module MoreRuns.

Local Abbreviation wei := Mock.wei.

(** A withdrawal with seqno 0: the chain id is asked for, then the envelope
    is submitted; the message count is not asked for. *)
Lemma explicit_seqno_witness :
  let f := Mock.faucet Mock.nothing Mock.failing in
  exists req,
    trace (snd (Faucet.withdrawTo f Mock.target None (Some 0) Mock.start))
    = [EvRequest Run.chain_request; EvRequest req] /\
    method req = "eth_sendRawTransaction".
Proof.
  intros f.
  destruct (WithdrawToFacts.explicit_seqno_skips_count_request
              Mock.World f Mock.target None 0 Mock.start)
    as (rest & Ht & _ & _ & Hall).
  assert (Hrest : rest = [EvRequest (Run.send_request "0x0000a905")]).
  { vm_compute in Ht. inversion Ht. reflexivity. }
  subst rest.
  destruct (Hall _ (or_introl eq_refl))
    as (chainId & env & req & _ & _ & (encoded & _ & Hreq) & Hev).
  exists req. split.
  - rewrite Ht, Hev. reflexivity.
  - rewrite Hreq. reflexivity.
Defined.

(** A withdrawal that goes through: one submission, and the hash of the
    submitted envelope comes back. *)
Lemma withdrawTo_single_shot_witness :
  let f := Mock.faucet Mock.nothing Mock.failing in
  let r := Faucet.withdrawTo f Mock.target None None Mock.start in
  fst r = Ok [x00] /\
  submissions (trace (snd r)) = 1%nat /\
  waits (trace (snd r)) = 0%nat.
Proof.
  intros f r.
  destruct (WithdrawToFacts.withdrawTo_is_single_shot
              Mock.World f Mock.target None None Mock.start)
    as (_ & Hwaits & _ & Hok).
  destruct (Hok [x00] eq_refl) as [Hone _].
  split; [reflexivity | ]. split; [exact Hone | exact Hwaits].
Defined.

(** The second attempt is confirmed: the hash returned is the one that
    attempt submitted, after one unsuccessful attempt. *)
Lemma returned_hash_witness :
  let f := Mock.faucet Mock.nothing (Mock.confirmingAfter 1) in
  exists k s_k receipts s',
    (k < 5)%nat /\
    iterated (Run.unsuccessful f Mock.target wei) k Mock.start s_k /\
    Run.observes f Mock.target wei s_k "0x01" receipts s' /\
    Run.confirmed receipts.
Proof.
  intros f.
  destruct (RetryFacts.returned_hash_was_confirmed
              Mock.World f Mock.target None None Mock.start
              (snd (Faucet.withdrawToWithRetry f Mock.target None None
                      Mock.start))
              "0x01" eq_refl)
    as (k & s_k & receipts & Hk & Hrun & Hobs & Hconf & _).
  exists k, s_k, receipts. eexists.
  split; [simpl in Hk; lia | ].
  split; [exact Hrun | ]. split; [exact Hobs | exact Hconf].
Defined.

(** Two attempts allowed and the node refuses every submission: the error
    of the call is the refusal thrown by the second attempt, after one
    unsuccessful attempt. *)
Lemma failed_run_witness :
  let f := Mock.faucet (Mock.always "eth_sendRawTransaction") Mock.failing in
  exists s_k s1,
    iterated (Run.unsuccessful f Mock.target wei) 1 Mock.start s_k /\
    Faucet.attempt f Mock.target wei s_k
    = (Err (Rejected "connection refused"), s1).
Proof.
  intros f.
  destruct (RetryFacts.failed_run_used_every_attempt
              Mock.World f Mock.target None (Some 2) Mock.start
              (snd (Faucet.withdrawToWithRetry f Mock.target None (Some 2)
                      Mock.start))
              (Rejected "connection refused") eq_refl)
    as [[Habs _] | (_ & s_k & s1 & Hrun & Ha & _)].
  - discriminate Habs.
  - exists s_k, s1. split; [exact Hrun | exact Ha].
Defined.

(** A checksummed address and its lower-case form. *)
Lemma case_insensitive_witness :
  let f := Mock.faucet Mock.nothing (Mock.confirmingAfter 0) in
  Faucet.withdrawToWithRetry f "0x0001AbCd" None None Mock.start
  = Faucet.withdrawToWithRetry f "0x0001abcd" None None Mock.start.
Proof.
  intros f.
  apply (RetryFacts.target_address_is_case_insensitive
           Mock.World f "0x0001AbCd" "0x0001abcd" eq_refl).
Defined.

(** The mock faucet on a client without shard id whose shard check refuses
    everything: [withdrawTo] goes through as before, while an attempt of
    [withdrawToWithRetry] submits as before and then gets no receipt. *)
Lemma ignores_shard_witness :
  let f := Mock.faucet Mock.nothing (Mock.confirmingAfter 0) in
  let c := PublicClient.mkClient
             (PublicClient.mkDeps (Mock.transport Mock.nothing)
                (fun _ => Err InvalidShardId) Mock.hexToNumber
                (fun h => h) Mock.bytesToHex)
             None in
  let f' := Faucet.mkFaucet c (Faucet.deps f) in
  Faucet.withdrawTo f' Mock.target None None Mock.start
  = Faucet.withdrawTo f Mock.target None None Mock.start /\
  Faucet.submit f' Mock.target wei Mock.start
  = Faucet.submit f Mock.target wei Mock.start /\
  fst (Faucet.attempt f Mock.target wei Mock.start) = Ok (Some "0x00") /\
  fst (Faucet.attempt f' Mock.target wei Mock.start) = Err InvalidShardId.
Proof.
  intros f c f'.
  destruct (RetryFacts.faucet_ignores_client_shard Mock.World f' f
              eq_refl eq_refl eq_refl) as [Hw Hs].
  split; [apply Hw | ]. split; [apply Hs | ]. split; reflexivity.
Defined.

(** On the stalled node with two attempts allowed every attempt makes its
    three requests and one poll: eight requests, the bound for [n = 1]. *)
Lemma run_requests_witness :
  let r := Faucet.withdrawToWithRetry Mock.stalledFaucet Mock.target None
             (Some 2) Mock.start in
  rpc_calls (trace (snd r)) = 8%nat /\
  List.length (own_requests (trace (snd r))) = 6%nat /\
  (rpc_calls (trace (snd r)) <= (3 + 1) * 2)%nat.
Proof.
  intros r.
  destruct (RetryFacts.run_requests_are_bounded Mock.World
              Mock.stalledFaucet Mock.target None (Some 2) Mock.start)
    as (_ & _ & _ & Hcalls).
  split; [reflexivity | ]. split; [reflexivity | ].
  apply (Hcalls 1%nat). intros shard hash. simpl. intros answer. 
  destruct answer as [[ | | | ] | ]; simpl; exact I.
Defined.

End MoreRuns.
